(** * analyze_imdb.py: the chunked aggregation pipeline of [analyse]

    A shallow embedding of [src/analyze_imdb.py].  The two tables that
    [pd.read_csv] delivers are the inputs: the ratings table as the list of
    its rows in file order, the title table as the list of chunks that
    [chunk_iter] yields.  Downloading, CSV/JSON writing and plotting are left
    out; the embedding ends at the data frames that are handed to [to_csv].

    Conventions.
    - A [float64] is an exact rational [Q]; [NaN] / [pd.NA] is [None].
      Equality of computed floats is therefore [Qeq], and sums, products
      and quotients are the exact ones: rounding is not modelled.  Where a
      statement would fail under rounding or overflow, it carries the
      hypothesis that keeps the data where the exact model and [float64]
      agree ([year_in_int64], [runtime_exact], weights that are not
      negative).
    - A Python [int] is a [Z]; [astype_int] is the truncation that
      [Series.astype(int)] is on values within the range of [int64].
    - A [dict], [defaultdict] or [Counter] is an association list in
      insertion order with unique keys.
    - A data frame is the list of its rows, a row is a record.
    - A pandas call that raises is a [Raise] result. *)

From Stdlib Require Import Strings.String Strings.Ascii.
From Stdlib Require Import List ZArith QArith Qround Bool Lia Permutation.
From Stdlib Require Import Sorting.Sorted Setoid Morphisms.
Import ListNotations.

Local Open Scope Z_scope.
Local Open Scope string_scope.
Local Open Scope list_scope.

(** ** Exceptions *)

Inductive exn : Type :=
| KeyError (labels : list string)
| ValueError (msg : string).

Inductive result (A : Type) : Type :=
| Ok (a : A)
| Raise (e : exn).

Arguments Ok {A} a.
Arguments Raise {A} e.

Definition bind {A B : Type} (r : result A) (k : A -> result B) : result B :=
  match r with
  | Ok a => k a
  | Raise e => Raise e
  end.

Notation "x <- r ;; k" := (bind r (fun x => k))
  (at level 61, r at next level, right associativity).

(** ** Generic helpers: dictionaries, sorting, grouping *)

Section Dict.
Context {K V : Type}.
Variable eqb : K -> K -> bool.

(** [d.get(k)] *)
Fixpoint get (d : list (K * V)) (k : K) : option V :=
  match d with
  | [] => None
  | (k', v) :: d' => if eqb k k' then Some v else get d' k
  end.

(** [d[k] = f(d[k])] on a [defaultdict] whose factory returns [dflt]:
    an absent key is first inserted, at the end, with the default. *)
Fixpoint upsert (dflt : V) (f : V -> V) (d : list (K * V)) (k : K)
  : list (K * V) :=
  match d with
  | [] => [(k, f dflt)]
  | (k', v) :: d' =>
      if eqb k k' then (k', f v) :: d'
      else (k', v) :: upsert dflt f d' k
  end.

(** [d[k]] on a [defaultdict], read only. *)
Definition get_or (dflt : V) (d : list (K * V)) (k : K) : V :=
  match get d k with
  | Some v => v
  | None => dflt
  end.

(** [for k, g in groups: d[k] = F(g, d[k])] *)
Definition fold_groups {G : Type} (dflt : V) (F : G -> V -> V)
  (groups : list (K * G)) (d : list (K * V)) : list (K * V) :=
  fold_left (fun d kg => upsert dflt (F (snd kg)) d (fst kg)) groups d.
End Dict.

Section Sorting.
Context {A : Type}.
Variable leb : A -> A -> bool.

Fixpoint insert_sorted (x : A) (l : list A) : list A :=
  match l with
  | [] => [x]
  | y :: l' => if leb x y then x :: y :: l' else y :: insert_sorted x l'
  end.

(** A sort by the key order [leb]. *)
Fixpoint sort_by (l : list A) : list A :=
  match l with
  | [] => []
  | x :: l' => insert_sorted x (sort_by l')
  end.
End Sorting.

Section Grouping.
Context {K R : Type}.
Variable eqb : K -> K -> bool.
Variable leb : K -> K -> bool.
Variable key : R -> K.

(** The distinct values of a list, first occurrences kept. *)
Fixpoint unique (l : list K) : list K :=
  match l with
  | [] => []
  | k :: l' => k :: filter (fun k' => negb (eqb k' k)) (unique l')
  end.

(** [for k, group in rows.groupby(key)]: the groups come in ascending key
    order and each holds the rows of its key in their original order. *)
Definition groupby (rows : list R) : list (K * list R) :=
  map (fun k => (k, filter (fun r => eqb (key r) k) rows))
      (sort_by leb (unique (map key rows))).
End Grouping.

(** ** Series reductions *)

Definition is_some {A : Type} (o : option A) : bool :=
  match o with Some _ => true | None => false end.

(** [Series.dropna().tolist()] *)
Definition dropna {A : Type} (l : list (option A)) : list A :=
  flat_map (fun o => match o with Some a => [a] | None => [] end) l.

Definition Qsum (l : list Q) : Q := fold_right Qplus (0 # 1)%Q l.
Definition Zsum (l : list Z) : Z := fold_right Z.add 0 l.

(** [Series.sum()] skips missing entries. *)
Definition series_sum (l : list (option Q)) : Q := Qsum (dropna l).

(** [a * b] element-wise: missing as soon as one factor is. *)
Definition mul_opt (a b : option Q) : option Q :=
  match a, b with
  | Some x, Some y => Some (x * y)%Q
  | _, _ => None
  end.

(** [Series.astype(float)] of an integer column. *)
Definition to_float (v : option Z) : option Q := option_map inject_Z v.

(** [astype(int)] / [int(x)]: truncation toward zero. *)
Definition astype_int (q : Q) : Z := Z.quot (Qnum q) (Zpos (Qden q)).

Definition Qltb (a b : Q) : bool := negb (Qle_bool b a).

Definition Qmaximum (x : Q) (l : list Q) : Q :=
  fold_left (fun m y => if Qltb m y then y else m) l x.

(** [Series.mean()]: mean of the entries present, [NaN] when there is none. *)
Definition series_mean (l : list (option Q)) : option Q :=
  match dropna l with
  | [] => None
  | x :: xs => Some (Qsum (x :: xs) / inject_Z (Z.of_nat (length (x :: xs))))%Q
  end.

(** [Series.quantile(q)], linear interpolation between the two closest
    ranks; [NaN] on an empty series. *)
Definition quantile (l : list Q) (q : Q) : option Q :=
  match sort_by Qle_bool l with
  | [] => None
  | x :: xs =>
      let s := x :: xs in
      let n := length s in
      let pos := (q * inject_Z (Z.of_nat (n - 1)))%Q in
      let lo := Z.to_nat (Qfloor pos) in
      let hi := Nat.min (S lo) (n - 1) in
      let frac := (pos - inject_Z (Qfloor pos))%Q in
      let a := nth lo s x in
      let b := nth hi s x in
      Some (a + (b - a) * frac)%Q
  end.

(** [Series.median()] *)
Definition median (l : list Q) : option Q := quantile l (1 # 2)%Q.

(** ** pd.cut with [right=False] *)

Section Cut.
Context {E X : Type}.
(** [edge_le e x]: the bin edge [e] is at most the value [x]. *)
Variable edge_le : E -> X -> bool.

(** [bins.searchsorted(x, side="right")] on increasing [bins]: the number
    of leading edges that are at most [x]. *)
Fixpoint searchsorted_right (bins : list E) (x : X) : nat :=
  match bins with
  | [] => 0
  | e :: bins' => if edge_le e x then S (searchsorted_right bins' x) else 0
  end.

(** The bin index of [x]: bin [i] is the half-open interval from edge [i]
    to edge [i+1]; a value left of the first edge or not left of the last
    one gets no bin. *)
Definition cut (bins : list E) (x : option X) : option nat :=
  match x with
  | None => None
  | Some v =>
      let ids := searchsorted_right bins v in
      if (Nat.eqb ids 0 || Nat.eqb ids (length bins))%bool then None
      else Some (ids - 1)%nat
  end.
End Cut.

(** [value_counts(sort=False)] of a categorical with [n] categories: one
    count per category, in category order, empty categories included. *)
Definition count_code (codes : list (option nat)) (c : nat) : Z :=
  Z.of_nat (length (filter (fun o => match o with
                                     | Some i => Nat.eqb i c
                                     | None => false
                                     end) codes)).

Definition value_counts (n : nat) (codes : list (option nat)) : list Z :=
  map (count_code codes) (seq 0 n).

(** [str.split(sep)] for a one-character separator. *)
Fixpoint str_split (sep : ascii) (s : string) : list string :=
  match s with
  | EmptyString => [EmptyString]
  | String c rest =>
      match str_split sep rest with
      | tok :: toks =>
          if Ascii.eqb c sep then EmptyString :: tok :: toks
          else String c tok :: toks
      | [] => [String c EmptyString]
      end
  end.

(** ** Data model *)

(** A row of [ratings_df].  [numVotes] is read as [int32], which has no
    missing value; [averageRating] is a [float64] and may be [NaN]. *)
Record RatingRecord : Type := mkRating {
  r_tconst : string;
  r_averageRating : option Q;
  r_numVotes : Z
}.

(** A row of a title chunk: every column is read as a nullable string. *)
Record TitleRecord : Type := mkTitle {
  t_tconst : string;
  titleType : option string;
  primaryTitle : option string;
  startYear : option string;
  runtimeMinutes : option string;
  genres : option string
}.

(** A row of [movies] after the join and the two [pd.to_numeric] calls. *)
Record Movie : Type := mkMovie {
  tconst : string;
  m_primaryTitle : option string;
  m_startYear : option Q;
  m_runtimeMinutes : option Q;
  m_genres : option string;
  averageRating : option Q;
  numVotes : option Z
}.

(** The payload of [year_weighted_sums]: a weighted sum and a vote total,
    and nothing else. *)
Record YearAcc : Type := mkYearAcc {
  y_weighted_sum : Q;
  y_votes : Z
}.

(** The payload of [genre_stats]. *)
Record GenreAcc : Type := mkGenreAcc {
  g_weighted_sum : Q;
  g_votes : Z;
  g_count : Z
}.

Definition year_default : YearAcc := mkYearAcc (0 # 1)%Q 0.
Definition genre_default : GenreAcc := mkGenreAcc (0 # 1)%Q 0 0.

(** A row of a frame of [top_titles_frames]. *)
Record TopRow : Type := mkTopRow {
  top_tconst : string;
  top_primaryTitle : option string;
  top_startYear : option Q;
  top_averageRating : option Q;
  top_numVotes : option Z
}.

(** A row of a frame of [scatter_frames]. *)
Record ScatterRow : Type := mkScatterRow {
  sc_averageRating : option Q;
  sc_numVotes : option Z
}.

(** The aggregators that live across the chunk loop. *)
Record Aggregators : Type := mkAggregators {
  movies_per_year : list (Z * Z);
  year_weighted_sums : list (Z * YearAcc);
  genre_stats : list (string * GenreAcc);
  runtime_minutes : list Q;
  top_titles_frames : list (list TopRow);
  scatter_frames : list (list ScatterRow)
}.

Definition empty_aggregators : Aggregators :=
  mkAggregators [] [] [] [] [] [].

(** ** The chunk loop *)

(** [chunk["titleType"] == "movie"]: a missing type tag selects nothing. *)
Definition is_movie (t : TitleRecord) : bool :=
  match titleType t with
  | Some s => String.eqb s "movie"
  | None => false
  end.

(** [movies.join(ratings_df, how="inner", on="tconst")]: the left order is
    kept and a title is paired with every index entry that carries its
    identifier. *)
Definition join_inner (ratings_df : list RatingRecord)
  (movies : list TitleRecord) : list (TitleRecord * RatingRecord) :=
  flat_map (fun t =>
              map (fun r => (t, r))
                  (filter (fun r => String.eqb (r_tconst r) (t_tconst t))
                          ratings_df))
           movies.

(** The sum of [averageRating * votes] over a group. *)
Definition group_weighted_sum (group : list Movie) : Q :=
  series_sum (map (fun m => mul_opt (averageRating m) (to_float (numVotes m)))
                  group).

(** [int(votes.sum())] over a group. *)
Definition group_votes (group : list Movie) : Z :=
  astype_int (series_sum (map (fun m => to_float (numVotes m)) group)).

(** [movies["startYear"].dropna().astype(int).value_counts()].  The counts
    are listed by year here; pandas lists them by frequency, an order that
    the [sorted] of the finalizer erases. *)
Definition year_counts (movies : list Movie) : list (Z * Z) :=
  map (fun kg => (fst kg, Z.of_nat (length (snd kg))))
      (groupby Z.eqb Z.leb (fun y : Z => y)
               (map astype_int (dropna (map m_startYear movies)))).

(** [Counter.update] *)
Definition counter_update (c counts : list (Z * Z)) : list (Z * Z) :=
  fold_groups Z.eqb 0 (fun n v => v + n) counts c.

(** [movies.dropna(subset=["startYear", "numVotes"])] with the year cast to
    [int]; the cast year is kept next to the row. *)
Definition valid_years (movies : list Movie) : list (Z * Movie) :=
  flat_map (fun m =>
              match m_startYear m, numVotes m with
              | Some y, Some _ => [(astype_int y, m)]
              | _, _ => []
              end)
           movies.

Definition add_year (group : list Movie) (a : YearAcc) : YearAcc :=
  mkYearAcc (y_weighted_sum a + group_weighted_sum group)%Q
            (y_votes a + group_votes group).

(** The loop over [grouped_years]. *)
Definition update_year_sums (d : list (Z * YearAcc)) (movies : list Movie)
  : list (Z * YearAcc) :=
  fold_groups Z.eqb year_default (fun group => add_year (map snd group))
              (groupby Z.eqb Z.leb fst (valid_years movies)) d.

(** [genre_chunk.assign(genre=...str.split(",")).explode("genre")] followed
    by the filter on the sentinel; the token is kept next to the row. *)
Definition exploded_genres (movies : list Movie) : list (string * Movie) :=
  filter (fun gm => negb (String.eqb (fst gm) "\N"))
         (flat_map (fun m =>
                      match m_genres m with
                      | Some g => map (fun tok => (tok, m)) (str_split "," g)
                      | None => []
                      end)
                   movies).

Definition add_genre (group : list Movie) (a : GenreAcc) : GenreAcc :=
  mkGenreAcc (g_weighted_sum a + group_weighted_sum group)%Q
             (g_votes a + group_votes group)
             (g_count a + Z.of_nat (length group)).

(** The loop over [exploded.groupby("genre")]. *)
Definition update_genre_stats (d : list (string * GenreAcc))
  (movies : list Movie) : list (string * GenreAcc) :=
  fold_groups String.eqb genre_default
              (fun group => add_genre (map snd group))
              (groupby String.eqb String.leb fst (exploded_genres movies)) d.

Definition top_row (m : Movie) : TopRow :=
  mkTopRow (tconst m) (m_primaryTitle m) (m_startYear m) (averageRating m)
           (numVotes m).

(** [movies["numVotes"] >= 50_000]: a missing vote count compares false. *)
Definition is_popular (m : Movie) : bool :=
  match numVotes m with
  | Some v => Z.leb 50000 v
  | None => false
  end.

Definition popular_subset (movies : list Movie) : list ScatterRow :=
  map (fun m => mkScatterRow (averageRating m) (numVotes m))
      (filter is_popular movies).

(** The body of [for chunk in chunk_iter], on the joined rows. *)
Definition update_aggregators (s : Aggregators) (movies : list Movie)
  : Aggregators :=
  mkAggregators
    (counter_update (movies_per_year s) (year_counts movies))
    (update_year_sums (year_weighted_sums s) movies)
    (update_genre_stats (genre_stats s) movies)
    (runtime_minutes s ++ dropna (map m_runtimeMinutes movies))
    (top_titles_frames s ++ [map top_row movies])
    (match popular_subset movies with
     | [] => scatter_frames s
     | rows => scatter_frames s ++ [rows]
     end).

Section ChunkLoop.
(** [pd.to_numeric(.., errors="coerce")] on one text cell: the number it
    denotes, or missing.  The aggregation is stated for any such
    coercion. *)
Variable to_numeric : string -> option Q.

Definition to_numeric_cell (s : option string) : option Q :=
  match s with
  | Some x => to_numeric x
  | None => None
  end.

Definition joined_movie (tr : TitleRecord * RatingRecord) : Movie :=
  let (t, r) := tr in
  mkMovie (t_tconst t) (primaryTitle t)
          (to_numeric_cell (startYear t))
          (to_numeric_cell (runtimeMinutes t))
          (genres t)
          (r_averageRating r) (Some (r_numVotes r)).

(** The first four statements of the loop body: filter, join, coerce. *)
Definition movies_of_chunk (ratings_df : list RatingRecord)
  (chunk : list TitleRecord) : list Movie :=
  map joined_movie (join_inner ratings_df (filter is_movie chunk)).

(** The whole loop, from empty aggregators. *)
Definition stream (ratings_df : list RatingRecord)
  (chunks : list (list TitleRecord)) : Aggregators :=
  fold_left (fun s chunk =>
               update_aggregators s (movies_of_chunk ratings_df chunk))
            chunks empty_aggregators.
End ChunkLoop.

(** ** The finalizer *)

Record YearlyRating : Type := mkYearlyRating {
  yr_year : Z;
  yr_weighted_average_rating : option Q;
  yr_votes : Z
}.

Record GenreRating : Type := mkGenreRating {
  gr_genre : string;
  gr_title_count : Z;
  gr_total_votes : Z;
  gr_weighted_average_rating : option Q
}.

Record PopularityRow : Type := mkPopularityRow {
  vote_band : string;
  title_count : Z;
  avg_rating : option Q;
  median_votes : option Q
}.

Record Summaries : Type := mkSummaries {
  total_rated_movies : Z;
  median_runtime : option Q;
  overall_weighted_rating : option Q;
  runtime_p10 : option Q;
  runtime_p25 : option Q;
  runtime_p75 : option Q;
  runtime_p90 : option Q;
  share_over_120_min : option Q
}.

(** What [analyse] hands to the CSV/JSON writers and to the plots. *)
Record Report : Type := mkReport {
  movies_per_year_df : list (Z * Z);
  yearly_ratings_df : list YearlyRating;
  genre_df : list GenreRating;
  top_titles_df : list TopRow;
  runtime_bins_df : list (string * Z);
  popularity_df : list PopularityRow;
  summaries : Summaries;
  runtime_series : list Q
}.

(** [pd.DataFrame(records).dropna(subset=[col])] for a list of dicts: the
    frame of an empty list has no column at all, and [dropna] raises
    [KeyError] for a [subset] label that is not a column. *)
Definition frame_dropna {R : Type} (col : string) (isna : R -> bool)
  (records : list R) : result (list R) :=
  match records with
  | [] => Raise (KeyError [col])
  | _ :: _ => Ok (filter (fun r => negb (isna r)) records)
  end.

(** [pd.concat(frames, ignore_index=True)] *)
Definition pd_concat {R : Type} (frames : list (list R)) : result (list R) :=
  match frames with
  | [] => Raise (ValueError "No objects to concatenate")
  | _ :: _ => Ok (concat frames)
  end.

(** Python's order on [(year, count)] tuples. *)
Definition item_leb (a b : Z * Z) : bool :=
  if Z.eqb (fst a) (fst b) then Z.leb (snd a) (snd b)
  else Z.leb (fst a) (fst b).

Definition year_leb (a b : Z * Z) : bool := Z.leb (fst a) (fst b).

Definition make_movies_per_year_df (c : list (Z * Z)) : list (Z * Z) :=
  filter (fun r => Z.leb 1900 (fst r))
         (sort_by year_leb (sort_by item_leb c)).

(** [payload["weighted_sum"] / votes if votes else float("nan")] *)
Definition payload_average (ws : Q) (votes : Z) : option Q :=
  if Z.eqb votes 0 then None else Some (ws / inject_Z votes)%Q.

Definition yearly_rating_records (d : list (Z * YearAcc))
  : list YearlyRating :=
  map (fun kp =>
         mkYearlyRating (fst kp)
           (payload_average (y_weighted_sum (snd kp)) (y_votes (snd kp)))
           (y_votes (snd kp)))
      d.

Definition make_yearly_ratings_df (d : list (Z * YearAcc))
  : result (list YearlyRating) :=
  rows <- frame_dropna "weighted_average_rating"
            (fun r => negb (is_some (yr_weighted_average_rating r)))
            (yearly_rating_records d) ;;
  Ok (sort_by (fun a b => Z.leb (yr_year a) (yr_year b)) rows).

Definition runtime_base_edges : list Q :=
  map inject_Z [0; 60; 75; 90; 105; 120; 150; 180].

(** The fixed edges, then [max_runtime + 1] when the maximum is beyond the
    last of them. *)
Definition runtime_edges (max_runtime : Q) : list Q :=
  if Qltb (inject_Z 180) max_runtime
  then runtime_base_edges ++ [(max_runtime + 1)%Q]
  else runtime_base_edges.

Definition runtime_labels_all : list string :=
  ["< 60 min"; "60-74"; "75-89"; "90-104"; "105-119"; "120-149"; "150-179";
   "180+"].

Definition make_runtime_bins_df (runtime_series : list Q)
  : list (string * Z) :=
  match runtime_series with
  | [] => []
  | x :: xs =>
      let max_runtime := Qmaximum x xs in
      let edges := runtime_edges max_runtime in
      let labels := firstn (length edges - 1) runtime_labels_all in
      let runtime_bins :=
        map (fun v => cut Qle_bool edges (Some v)) runtime_series in
      combine labels (value_counts (length labels) runtime_bins)
  end.

Definition make_long_runtime_share (runtime_series : list Q) : option Q :=
  match runtime_series with
  | [] => None
  | _ :: _ =>
      Some (inject_Z (Z.of_nat (length (filter (Qle_bool (inject_Z 120))
                                               runtime_series)))
            / inject_Z (Z.of_nat (length runtime_series)))%Q
  end.

Definition genre_records (d : list (string * GenreAcc)) : list GenreRating :=
  map (fun kp =>
         mkGenreRating (fst kp) (g_count (snd kp)) (g_votes (snd kp))
           (payload_average (g_weighted_sum (snd kp)) (g_votes (snd kp))))
      d.

Definition make_genre_df (d : list (string * GenreAcc))
  : result (list GenreRating) :=
  rows <- frame_dropna "weighted_average_rating"
            (fun r => negb (is_some (gr_weighted_average_rating r)))
            (genre_records d) ;;
  Ok (sort_by (fun a b => Z.leb (gr_total_votes b) (gr_total_votes a)) rows).

(** Descending order of [numVotes], missing values last. *)
Definition votes_desc_leb (a b : TopRow) : bool :=
  match top_numVotes a, top_numVotes b with
  | Some x, Some y => Z.leb y x
  | Some _, None => true
  | None, Some _ => false
  | None, None => true
  end.

(** [drop_duplicates("tconst")]: the first row of every identifier is kept;
    [seen] holds the identifiers met so far. *)
Fixpoint drop_duplicates (seen : list string) (rows : list TopRow)
  : list TopRow :=
  match rows with
  | [] => []
  | r :: rows' =>
      if existsb (String.eqb (top_tconst r)) seen
      then drop_duplicates seen rows'
      else r :: drop_duplicates (top_tconst r :: seen) rows'
  end.

Definition make_top_titles_df (frames : list (list TopRow))
  : result (list TopRow) :=
  all <- pd_concat frames ;;
  Ok (firstn 20
        (drop_duplicates []
           (sort_by votes_desc_leb
              (filter (fun r => is_some (top_numVotes r)) all)))).

Definition make_scatter_df (frames : list (list ScatterRow))
  : list ScatterRow :=
  match frames with
  | [] => []
  | _ :: _ => concat frames
  end.

(** An edge of [vote_bins]; the last one is [float("inf")]. *)
Inductive edge : Type :=
| Finite (z : Z)
| Infinity.

Definition edge_leb (e : edge) (v : Z) : bool :=
  match e with
  | Finite z => Z.leb z v
  | Infinity => false
  end.

Definition vote_bins : list edge :=
  [Finite 50000; Finite 100000; Finite 200000; Finite 500000;
   Finite 1000000; Finite 2000000; Finite 5000000; Infinity].

Definition vote_labels : list string :=
  ["50k-100k"; "100k-200k"; "200k-500k"; "500k-1M"; "1M-2M"; "2M-5M"; "5M+"].

Definition vote_band_code (r : ScatterRow) : option nat :=
  cut edge_leb vote_bins (sc_numVotes r).

(** The rows of [scatter_df] that [groupby("vote_band")] puts in band [i],
    after [dropna(subset=["vote_band"])]. *)
Definition band_members (scatter_df : list ScatterRow) (i : nat)
  : list ScatterRow :=
  filter (fun r => match vote_band_code r with
                   | Some j => Nat.eqb j i
                   | None => false
                   end)
         (filter (fun r => is_some (vote_band_code r)) scatter_df).

(** [groupby("vote_band", observed=False).agg(..)]: one row per category of
    the categorical, in category order, observed or not. *)
Definition make_popularity_df (scatter_df : list ScatterRow)
  : list PopularityRow :=
  match scatter_df with
  | [] => []
  | _ :: _ =>
      map (fun il =>
             let members := band_members scatter_df (fst il) in
             mkPopularityRow (snd il)
               (Z.of_nat (length members))
               (series_mean (map sc_averageRating members))
               (median (map inject_Z (dropna (map sc_numVotes members)))))
          (combine (seq 0 (length vote_labels)) vote_labels)
  end.

(** [weighted_average(ratings, weights)] *)
Definition weighted_average (ratings weights : list (option Q)) : option Q :=
  let total_weight := series_sum weights in
  if Qeq_bool total_weight (0 # 1)%Q then None
  else Some (series_sum (map (fun rw => mul_opt (fst rw) (snd rw))
                             (combine ratings weights))
             / total_weight)%Q.

Definition make_summaries (ratings_df : list RatingRecord)
  (movies_per_year_df : list (Z * Z)) (runtime_series : list Q) : Summaries :=
  mkSummaries
    (Zsum (map snd movies_per_year_df))
    (median runtime_series)
    (weighted_average (map r_averageRating ratings_df)
                      (map (fun r => to_float (Some (r_numVotes r)))
                           ratings_df))
    (quantile runtime_series (1 # 10)%Q)
    (quantile runtime_series (1 # 4)%Q)
    (quantile runtime_series (3 # 4)%Q)
    (quantile runtime_series (9 # 10)%Q)
    (make_long_runtime_share runtime_series).

(** Everything after the chunk loop, in statement order. *)
Definition finalize (ratings_df : list RatingRecord) (s : Aggregators)
  : result Report :=
  let mpy := make_movies_per_year_df (movies_per_year s) in
  yearly <- make_yearly_ratings_df (year_weighted_sums s) ;;
  let bins := make_runtime_bins_df (runtime_minutes s) in
  genre <- make_genre_df (genre_stats s) ;;
  top <- make_top_titles_df (top_titles_frames s) ;;
  let popularity := make_popularity_df (make_scatter_df (scatter_frames s)) in
  Ok (mkReport mpy yearly genre top bins popularity
        (make_summaries ratings_df mpy (runtime_minutes s))
        (runtime_minutes s)).

(** [analyse()], from the two tables as read. *)
Definition analyse (to_numeric : string -> option Q)
  (ratings_df : list RatingRecord) (chunks : list (list TitleRecord))
  : result Report :=
  finalize ratings_df (stream to_numeric ratings_df chunks).

(** ** A coercion for plain decimal numerals

    [pd.to_numeric] reads a run of decimal digits as the number it writes.
    This instance is used for the worked example; any other text is read
    as missing here. *)

Definition digit_value (c : ascii) : option Z :=
  let n := nat_of_ascii c in
  if (Nat.leb 48 n && Nat.leb n 57)%bool then Some (Z.of_nat (n - 48))
  else None.

Fixpoint digits_value (acc : Z) (s : string) : option Z :=
  match s with
  | EmptyString => Some acc
  | String c rest =>
      match digit_value c with
      | Some d => digits_value (10 * acc + d) rest
      | None => None
      end
  end.

Definition to_numeric_digits (s : string) : option Q :=
  match s with
  | EmptyString => None
  | String _ _ => option_map inject_Z (digits_value 0 s)
  end.

(** ** Quantities the properties are stated with *)

(** All joined rows of a run, in stream order. *)
Definition joined_rows (to_numeric : string -> option Q)
  (ratings_df : list RatingRecord) (chunks : list (list TitleRecord))
  : list Movie :=
  concat (map (movies_of_chunk to_numeric ratings_df) chunks).

(** The rows whose year is known and casts to [y] and whose vote count is
    known. *)
Definition rows_of_year (y : Z) (movies : list Movie) : list Movie :=
  filter (fun m =>
            match m_startYear m, numVotes m with
            | Some q, Some _ => Z.eqb (astype_int q) y
            | _, _ => false
            end)
         movies.

(** The rows that carry the genre token [g], once per occurrence of the
    token. *)
Definition rows_of_genre (g : string) (movies : list Movie) : list Movie :=
  map snd (filter (fun gm => String.eqb (fst gm) g) (exploded_genres movies)).

(** Rating times votes of one row; a row without a rating or without a
    vote count adds nothing to a sum, as in [Series.sum]. *)
Definition rating_times_votes (m : Movie) : Q :=
  match averageRating m, numVotes m with
  | Some r, Some v => (r * inject_Z v)%Q
  | _, _ => (0 # 1)%Q
  end.

Definition votes_of (m : Movie) : Z :=
  match numVotes m with
  | Some v => v
  | None => 0
  end.

Definition direct_weighted_sum (rows : list Movie) : Q :=
  Qsum (map rating_times_votes rows).

Definition direct_votes (rows : list Movie) : Z := Zsum (map votes_of rows).

(** Ratings and vote counts that are present are not negative. *)
Definition nonneg_row (m : Movie) : Prop :=
  (forall r, averageRating m = Some r -> (0 <= r)%Q) /\
  (forall v, numVotes m = Some v -> 0 <= v).

(** ** The worked example of the specification *)

Definition example_ratings : list RatingRecord :=
  [mkRating "t1" (Some (8 # 1)%Q) 100; mkRating "t2" (Some (6 # 1)%Q) 50].

Definition example_title_1 : TitleRecord :=
  mkTitle "t1" (Some "movie") (Some "A") (Some "2000") (Some "90")
          (Some "Drama").

Definition example_title_2 : TitleRecord :=
  mkTitle "t2" (Some "movie") (Some "B") (Some "2000") (Some "100")
          (Some "Drama,Comedy").

Definition example_titles : list TitleRecord :=
  [example_title_1; example_title_2].

(** The rating reported for a year, a genre; the count reported for a
    year. *)
Definition yearly_rating_of (rep : Report) (y : Z) : option Q :=
  match find (fun r => Z.eqb (yr_year r) y) (yearly_ratings_df rep) with
  | Some r => yr_weighted_average_rating r
  | None => None
  end.

Definition genre_rating_of (rep : Report) (g : string) : option Q :=
  match find (fun r => String.eqb (gr_genre r) g) (genre_df rep) with
  | Some r => gr_weighted_average_rating r
  | None => None
  end.

Definition year_count_of (rep : Report) (y : Z) : option Z :=
  get Z.eqb (movies_per_year_df rep) y.


(** The rows of a coded list that fall in category [i]. *)
Definition members_of {R : Type} (code : R -> option nat) (l : list R)
  (i : nat) : list R :=
  filter (fun r => match code r with
                   | Some j => Nat.eqb j i
                   | None => false
                   end) l.


(** A ratings table with a repeated identifier, and a collection with one
    popular title. *)
Definition duplicate_ratings : list RatingRecord :=
  [mkRating "t1" (Some (8 # 1)%Q) 100; mkRating "t1" (Some (6 # 1)%Q) 50].

Definition popular_ratings : list RatingRecord :=
  [mkRating "t1" (Some (8 # 1)%Q) 60000].

(** Titles for the finalizer's corner cases: a movie without a rating
    record, a movie of 1895, a movie of 180 minutes, a movie without
    genres. *)
Definition unrated_title : TitleRecord :=
  mkTitle "t9" (Some "movie") (Some "C") (Some "1999") (Some "95")
          (Some "Drama").

Definition early_title : TitleRecord :=
  mkTitle "t2" (Some "movie") (Some "B") (Some "1895") (Some "1")
          (Some "Short").

Definition three_hour_title : TitleRecord :=
  mkTitle "t1" (Some "movie") (Some "A") (Some "2000") (Some "180")
          (Some "Drama").

Definition genreless_title : TitleRecord :=
  mkTitle "t1" (Some "movie") (Some "A") (Some "2000") (Some "90") None.

(** What the specification expects of a run on the example. *)
Definition example_outcome (r : result Report) : Prop :=
  exists rep y d c,
    r = Ok rep /\
    yearly_rating_of rep 2000 = Some y /\ (y == 22 # 3)%Q /\
    genre_rating_of rep "Drama" = Some d /\ (d == 22 # 3)%Q /\
    genre_rating_of rep "Comedy" = Some c /\ (c == 6 # 1)%Q /\
    year_count_of rep 2000 = Some 2 /\
    map yr_year (yearly_ratings_df rep) = [2000] /\
    map (fun r => (gr_genre r, gr_title_count r)) (genre_df rep)
    = [("Drama", 2); ("Comedy", 1)].

(** A rating record whose rating, when present, and whose vote count are
    not negative. *)
Definition nonneg_rating (r : RatingRecord) : Prop :=
  (forall x, r_averageRating r = Some x -> (0 <= x)%Q) /\
  0 <= r_numVotes r.

(** The year of a row as the chunk loop counts it: the cast of the coerced
    start year, when there is one. *)
Definition year_of (m : Movie) : option Z :=
  option_map astype_int (m_startYear m).

(** The rows counted for the year [y], and the rows counted for a year
    that satisfies [p]. *)
Definition rows_with_year (y : Z) (movies : list Movie) : list Movie :=
  filter (fun m => match year_of m with
                   | Some k => Z.eqb k y
                   | None => false
                   end) movies.

Definition rows_with_year_in (p : Z -> bool) (movies : list Movie)
  : list Movie :=
  filter (fun m => match year_of m with
                   | Some k => p k
                   | None => false
                   end) movies.

(** A rating record with a rating between [lo] and [hi] and a vote count
    that is not negative; a joined row of that kind. *)
Definition rating_within (lo hi : Q) (r : RatingRecord) : Prop :=
  (exists x, r_averageRating r = Some x /\ (lo <= x)%Q /\ (x <= hi)%Q) /\
  0 <= r_numVotes r.

Definition row_within (lo hi : Q) (m : Movie) : Prop :=
  (exists x, averageRating m = Some x /\ (lo <= x)%Q /\ (x <= hi)%Q) /\
  (forall v, numVotes m = Some v -> 0 <= v).

(** A known entry of a series between [lo] and [hi]. *)
Definition known_within (lo hi : Q) (o : option Q) : Prop :=
  exists x, o = Some x /\ (lo <= x)%Q /\ (x <= hi)%Q.

Definition known_nonneg (o : option Q) : Prop :=
  exists x, o = Some x /\ (0 <= x)%Q.

(** Bin [i] of the runtime table as a test on a sample: from edge [i],
    included, to edge [i+1], excluded. *)
Definition in_runtime_bin (edges : list Q) (i : nat) (v : Q) : bool :=
  (Qle_bool (nth i edges (0 # 1)%Q) v
   && Qltb v (nth (S i) edges (0 # 1)%Q))%bool.

(** The edges are increasing: an edge that is at most [x] has only such
    edges before it. *)
Definition increasing_edges {E X : Type} (edge_le : E -> X -> bool)
  (bins : list E) : Prop :=
  StronglySorted (fun e1 e2 => forall x, edge_le e2 x = true ->
                                         edge_le e1 x = true) bins.

(** ** [download_datasets]

    The data directory is the dictionary of its files, name to content.
    The network is a function from a URL to what the request gives. *)

Definition DATA_URLS : list (string * string) :=
  [("title.basics.tsv.gz", "https://datasets.imdbws.com/title.basics.tsv.gz");
   ("title.ratings.tsv.gz",
    "https://datasets.imdbws.com/title.ratings.tsv.gz")].

(** [requests.get(url, stream=True)], [raise_for_status()] and the
    iteration of [iter_content]: either the request raises, or the body
    comes as chunks, and the iteration ends ([completed]) or raises after
    them. *)
Inductive response : Type :=
| RequestError
| Body (chunks : list string) (completed : bool).

(** [dest.exists()] *)
Definition exists_file (fs : list (string * string)) (name : string) : bool :=
  is_some (get String.eqb fs name).

(** What [dest.open("wb")] and the writes leave: the file is created or
    replaced. *)
Definition write_file (fs : list (string * string)) (name content : string)
  : list (string * string) :=
  upsert String.eqb content (fun _ => content) fs name.

(** [if chunk: fh.write(chunk)] over the chunks. *)
Definition written (chunks : list string) : string :=
  String.concat "" (filter (fun c => negb (String.eqb c "")) chunks).

(** The loop over the datasets; the boolean tells whether it returned
    ([true]) or raised ([false]). *)
Fixpoint download_from (fetch : string -> response)
  (urls : list (string * string)) (fs : list (string * string))
  : list (string * string) * bool :=
  match urls with
  | [] => (fs, true)
  | (filename, url) :: rest =>
      if exists_file fs filename then download_from fetch rest fs
      else
        match fetch url with
        | RequestError => (fs, false)
        | Body chunks completed =>
            let fs' := write_file fs filename (written chunks) in
            if completed then download_from fetch rest fs' else (fs', false)
        end
  end.

Definition download_datasets (fetch : string -> response)
  (fs : list (string * string)) : list (string * string) * bool :=
  download_from fetch DATA_URLS fs.

(** A row whose start year, when known, is within the range of [int64],
    where [Series.astype(int)] is the truncation that [astype_int] is. *)
Definition year_in_int64 (m : Movie) : Prop :=
  forall q, m_startYear m = Some q ->
            (inject_Z (- 2 ^ 63) <= q)%Q /\ (q < inject_Z (2 ^ 63))%Q.

(** A runtime below 2^53: there two neighbouring [float64] are at most one
    apart, so that adding one to such a value gives a larger [float64], as
    it does in [Q]. *)
Definition runtime_exact (v : Q) : Prop := (v < inject_Z (2 ^ 53))%Q.

(** * Facts about the helpers *)

Section DictFacts.
Context {K V : Type}.
Variable eqb : K -> K -> bool.
Hypothesis eqb_spec : forall a b, eqb a b = true <-> a = b.

Lemma eqb_refl_true (k : K) : eqb k k = true.
Proof. now apply eqb_spec. Qed.

Lemma eqb_neq_false (a b : K) : a <> b -> eqb a b = false.
Proof.
  intros Hne. destruct (eqb a b) eqn:E; [|reflexivity].
  now apply eqb_spec in E.
Qed.

Lemma get_upsert_same dflt f (d : list (K * V)) k :
  get eqb (upsert eqb dflt f d k) k = Some (f (get_or eqb dflt d k)).
Proof.
  unfold get_or.
  induction d as [|[k' v] d IH]; simpl.
  - now rewrite eqb_refl_true.
  - destruct (eqb k k') eqn:E; simpl; rewrite E; [reflexivity|exact IH].
Qed.

Lemma get_upsert_other dflt f (d : list (K * V)) k k' :
  k' <> k -> get eqb (upsert eqb dflt f d k) k' = get eqb d k'.
Proof.
  intros Hne.
  induction d as [|[k0 v] d IH]; simpl.
  - now rewrite (eqb_neq_false _ _ Hne).
  - destruct (eqb k k0) eqn:E; simpl.
    + apply eqb_spec in E; subst k0.
      now rewrite (eqb_neq_false _ _ Hne).
    + now rewrite IH.
Qed.

Lemma in_keys_upsert dflt f (d : list (K * V)) k k' :
  In k' (map fst (upsert eqb dflt f d k)) <-> k' = k \/ In k' (map fst d).
Proof.
  induction d as [|[k0 v] d IH]; simpl.
  - intuition congruence.
  - destruct (eqb k k0) eqn:E; simpl.
    + apply eqb_spec in E; subst k0. intuition congruence.
    + rewrite IH. intuition congruence.
Qed.

Lemma NoDup_keys_upsert dflt f (d : list (K * V)) k :
  NoDup (map fst d) -> NoDup (map fst (upsert eqb dflt f d k)).
Proof.
  induction d as [|[k0 v] d IH]; simpl; intros Hnd.
  - constructor; [intros []|constructor].
  - inversion Hnd as [|? ? Hnotin Hnd']; subst.
    destruct (eqb k k0) eqn:E; simpl.
    + now constructor.
    + constructor; [|now apply IH].
      rewrite in_keys_upsert. intros [->|Hin]; [|contradiction].
      now rewrite eqb_refl_true in E.
Qed.

Lemma get_in (d : list (K * V)) k v : get eqb d k = Some v -> In (k, v) d.
Proof.
  induction d as [|[k0 v0] d IH]; simpl; [discriminate|].
  destruct (eqb k k0) eqn:E.
  - intros [= <-]. apply eqb_spec in E. subst. now left.
  - intros H. right. now apply IH.
Qed.

Lemma in_get (d : list (K * V)) k v :
  NoDup (map fst d) -> In (k, v) d -> get eqb d k = Some v.
Proof.
  induction d as [|[k0 v0] d IH]; simpl; intros Hnd Hin; [contradiction|].
  inversion Hnd as [|? ? Hnotin Hnd']; subst.
  destruct Hin as [[= -> ->]|Hin].
  - now rewrite eqb_refl_true.
  - destruct (eqb k k0) eqn:E.
    + apply eqb_spec in E. subst k0. exfalso. apply Hnotin.
      now apply (in_map fst) in Hin.
    + now apply IH.
Qed.

Lemma get_none_not_in (d : list (K * V)) k :
  get eqb d k = None <-> ~ In k (map fst d).
Proof.
  induction d as [|[k0 v0] d IH]; simpl.
  - tauto.
  - destruct (eqb k k0) eqn:E.
    + apply eqb_spec in E. subst. split; [discriminate|intuition].
    + rewrite IH. split.
      * intros Hn [->|Hin]; [now rewrite eqb_refl_true in E|tauto].
      * tauto.
Qed.

(** A fold of [upsert] over groups with distinct keys touches every key
    once. *)
Section FoldGroups.
Context {G : Type}.
Variable dflt : V.
Variable F : G -> V -> V.

Lemma get_fold_groups_absent groups d k :
  ~ In k (map fst groups) ->
  get eqb (fold_groups eqb dflt F groups d) k = get eqb d k.
Proof.
  unfold fold_groups.
  revert d; induction groups as [|[k0 g0] groups IH]; simpl; intros d Hn.
  - reflexivity.
  - rewrite IH by tauto. apply get_upsert_other. intros ->. tauto.
Qed.

Lemma get_fold_groups_present groups d k g :
  NoDup (map fst groups) -> In (k, g) groups ->
  get eqb (fold_groups eqb dflt F groups d) k
  = Some (F g (get_or eqb dflt d k)).
Proof.
  unfold fold_groups.
  revert d; induction groups as [|[k0 g0] groups IH]; simpl;
    intros d Hnd Hin; [contradiction|].
  inversion Hnd as [|? ? Hnotin Hnd']; subst.
  destruct Hin as [[= -> ->]|Hin].
  - fold (fold_groups eqb dflt F groups (upsert eqb dflt (F g) d k)).
    rewrite get_fold_groups_absent by assumption.
    apply get_upsert_same.
  - rewrite (IH _ Hnd' Hin). unfold get_or.
    rewrite get_upsert_other; [reflexivity|].
    intros ->. apply Hnotin. now apply (in_map fst) in Hin.
Qed.

Lemma NoDup_keys_fold_groups groups d :
  NoDup (map fst d) -> NoDup (map fst (fold_groups eqb dflt F groups d)).
Proof.
  unfold fold_groups.
  revert d; induction groups as [|[k0 g0] groups IH]; simpl; intros d Hnd.
  - assumption.
  - apply IH. now apply NoDup_keys_upsert.
Qed.
End FoldGroups.
End DictFacts.

Section SortingFacts.
Context {A : Type}.
Variable leb : A -> A -> bool.

Lemma insert_sorted_perm x l : Permutation (insert_sorted leb x l) (x :: l).
Proof.
  induction l as [|y l IH]; simpl.
  - reflexivity.
  - destruct (leb x y); [reflexivity|].
    rewrite IH. apply perm_swap.
Qed.

Lemma sort_by_perm l : Permutation (sort_by leb l) l.
Proof.
  induction l as [|x l IH]; simpl.
  - reflexivity.
  - rewrite insert_sorted_perm. now constructor.
Qed.

Lemma sort_by_in x l : In x (sort_by leb l) <-> In x l.
Proof.
  split; apply Permutation_in; [|symmetry]; apply sort_by_perm.
Qed.

Hypothesis leb_total : forall a b, leb a b = true \/ leb b a = true.
Hypothesis leb_trans :
  forall a b c, leb a b = true -> leb b c = true -> leb a c = true.

Lemma insert_sorted_sorted x l :
  StronglySorted (fun a b => leb a b = true) l ->
  StronglySorted (fun a b => leb a b = true) (insert_sorted leb x l).
Proof.
  induction l as [|y l IH]; simpl; intros Hs.
  - constructor; constructor.
  - inversion Hs as [|? ? Hs' Hall]; subst.
    destruct (leb x y) eqn:E.
    + constructor; [assumption|].
      constructor; [exact E|].
      eapply Forall_impl; [|exact Hall].
      intros z Hz. exact (leb_trans _ _ _ E Hz).
    + constructor; [now apply IH|].
      rewrite Forall_forall. intros z Hz.
      apply (Permutation_in _ (insert_sorted_perm x l)) in Hz.
      destruct Hz as [<-|Hz].
      * destruct (leb_total x y) as [H|H]; [congruence|exact H].
      * rewrite Forall_forall in Hall. now apply Hall.
Qed.

Lemma sort_by_sorted l :
  StronglySorted (fun a b => leb a b = true) (sort_by leb l).
Proof.
  induction l as [|x l IH]; simpl.
  - constructor.
  - now apply insert_sorted_sorted.
Qed.
End SortingFacts.

Section GroupingFacts.
Context {K R : Type}.
Variable eqb : K -> K -> bool.
Hypothesis eqb_spec : forall a b, eqb a b = true <-> a = b.
Variable leb : K -> K -> bool.
Variable key : R -> K.

Lemma in_unique k l : In k (unique eqb l) <-> In k l.
Proof.
  induction l as [|k0 l IH]; simpl; [tauto|].
  rewrite filter_In, IH.
  split.
  - intros [->|[H _]]; auto.
  - intros [->|H]; [now left|].
    destruct (eqb k k0) eqn:E.
    + apply eqb_spec in E. now left.
    + right. now split.
Qed.

Lemma NoDup_unique l : NoDup (unique eqb l).
Proof.
  induction l as [|k0 l IH]; simpl; constructor.
  - rewrite filter_In. intros [_ H].
    now rewrite (eqb_refl_true eqb eqb_spec) in H.
  - now apply NoDup_filter.
Qed.

Lemma groupby_keys rows :
  map fst (groupby eqb leb key rows)
  = sort_by leb (unique eqb (map key rows)).
Proof.
  unfold groupby. rewrite map_map. simpl. apply map_id.
Qed.

Lemma NoDup_groupby_keys rows : NoDup (map fst (groupby eqb leb key rows)).
Proof.
  rewrite groupby_keys.
  eapply Permutation_NoDup; [symmetry; apply sort_by_perm|].
  apply NoDup_unique.
Qed.

Lemma in_groupby_keys k rows :
  In k (map fst (groupby eqb leb key rows)) <-> In k (map key rows).
Proof. now rewrite groupby_keys, sort_by_in, in_unique. Qed.

Lemma in_groupby k g rows :
  In (k, g) (groupby eqb leb key rows) <->
  In k (map key rows) /\ g = filter (fun r => eqb (key r) k) rows.
Proof.
  unfold groupby. rewrite in_map_iff. split.
  - intros [k' [[= -> <-] Hin]].
    now rewrite sort_by_in, in_unique in Hin.
  - intros [Hin ->]. exists k. split; [reflexivity|].
    now rewrite sort_by_in, in_unique.
Qed.

Lemma filter_absent_key k rows :
  ~ In k (map key rows) -> filter (fun r => eqb (key r) k) rows = [].
Proof.
  induction rows as [|r rows IH]; simpl; intros Hn; [reflexivity|].
  destruct (eqb (key r) k) eqn:E.
  - apply eqb_spec in E. tauto.
  - apply IH. tauto.
Qed.
End GroupingFacts.

(** * Facts about sums *)

Lemma Qsum_app l1 l2 : (Qsum (l1 ++ l2) == Qsum l1 + Qsum l2)%Q.
Proof.
  induction l1 as [|x l1 IH]; simpl.
  - now rewrite Qplus_0_l.
  - rewrite IH. apply Qplus_assoc.
Qed.

Lemma Zsum_app l1 l2 : Zsum (l1 ++ l2) = Zsum l1 + Zsum l2.
Proof. induction l1 as [|x l1 IH]; simpl; lia. Qed.

Lemma Zsum_perm l1 l2 : Permutation l1 l2 -> Zsum l1 = Zsum l2.
Proof. induction 1; simpl; lia. Qed.

Lemma Qsum_inject_Z (zs : list Z) :
  Qsum (map inject_Z zs) = inject_Z (Zsum zs).
Proof.
  induction zs as [|z zs IH]; simpl; [reflexivity|].
  rewrite IH. unfold inject_Z, Qplus. simpl. f_equal. lia.
Qed.

Lemma astype_int_inject_Z z : astype_int (inject_Z z) = z.
Proof. unfold astype_int. simpl. apply Z.quot_1_r. Qed.

Lemma dropna_map_some {A B : Type} (f : A -> B) (l : list (option A)) :
  dropna (map (option_map f) l) = map f (dropna l).
Proof.
  induction l as [|[a|] l IH]; simpl; [reflexivity| |assumption].
  now rewrite IH.
Qed.

Lemma dropna_app {A : Type} (l1 l2 : list (option A)) :
  dropna (l1 ++ l2) = dropna l1 ++ dropna l2.
Proof. unfold dropna. apply flat_map_app. Qed.

Lemma group_weighted_sum_direct rows :
  (group_weighted_sum rows == direct_weighted_sum rows)%Q.
Proof.
  unfold group_weighted_sum, direct_weighted_sum, series_sum.
  induction rows as [|m rows IH]; simpl; [reflexivity|].
  unfold rating_times_votes.
  destruct (averageRating m) as [r|], (numVotes m) as [v|]; simpl;
    rewrite IH; try reflexivity; now rewrite Qplus_0_l.
Qed.

Lemma group_votes_direct rows : group_votes rows = direct_votes rows.
Proof.
  unfold group_votes, direct_votes, series_sum, to_float.
  rewrite <- (map_map numVotes (option_map inject_Z)).
  rewrite dropna_map_some, Qsum_inject_Z, astype_int_inject_Z.
  induction rows as [|m rows IH]; simpl; [reflexivity|].
  unfold votes_of at 1. destruct (numVotes m); simpl; lia.
Qed.

Lemma direct_weighted_sum_app l1 l2 :
  (direct_weighted_sum (l1 ++ l2)
   == direct_weighted_sum l1 + direct_weighted_sum l2)%Q.
Proof. unfold direct_weighted_sum. rewrite map_app. apply Qsum_app. Qed.

Lemma direct_votes_app l1 l2 :
  direct_votes (l1 ++ l2) = direct_votes l1 + direct_votes l2.
Proof. unfold direct_votes. rewrite map_app. apply Zsum_app. Qed.

Lemma Qplus_nonneg (a b : Q) : (0 <= a -> 0 <= b -> 0 <= a + b)%Q.
Proof. intros Ha Hb. exact (Qplus_le_compat 0 a 0 b Ha Hb). Qed.

Lemma direct_weighted_sum_nonneg rows :
  Forall nonneg_row rows -> (0 <= direct_weighted_sum rows)%Q.
Proof.
  unfold direct_weighted_sum.
  induction 1 as [|m rows [Hr Hv] _ IH]; simpl; [apply Qle_refl|].
  apply Qplus_nonneg; [|exact IH]. (* the head term *)
  unfold rating_times_votes.
  destruct (averageRating m) as [r|]; [|apply Qle_refl].
  destruct (numVotes m) as [v|]; [|apply Qle_refl].
  apply Qmult_le_0_compat; [now apply Hr|].
  change (0 # 1)%Q with (inject_Z 0). rewrite <- Zle_Qle. now apply Hv.
Qed.

Lemma direct_votes_nonneg rows :
  Forall nonneg_row rows -> 0 <= direct_votes rows.
Proof.
  unfold direct_votes.
  induction 1 as [|m rows [Hr Hv] _ IH]; simpl; [lia|].
  unfold votes_of at 1. destruct (numVotes m) as [v|]; [|lia].
  specialize (Hv v eq_refl). lia.
Qed.

(** * Facts about the year and genre accumulators *)

Lemma Zeqb_spec (a b : Z) : Z.eqb a b = true <-> a = b.
Proof. apply Z.eqb_eq. Qed.

Lemma Seqb_spec (a b : string) : String.eqb a b = true <-> a = b.
Proof. apply String.eqb_eq. Qed.

Lemma valid_years_rows y movies :
  map snd (filter (fun r => Z.eqb (fst r) y) (valid_years movies))
  = rows_of_year y movies.
Proof.
  unfold valid_years, rows_of_year.
  induction movies as [|m movies IH]; simpl; [reflexivity|].
  destruct (m_startYear m) as [q|], (numVotes m) as [v|]; simpl;
    try exact IH.
  destruct (Z.eqb (astype_int q) y); simpl; now rewrite IH.
Qed.

Lemma rows_of_year_app y l1 l2 :
  rows_of_year y (l1 ++ l2) = rows_of_year y l1 ++ rows_of_year y l2.
Proof. unfold rows_of_year. apply filter_app. Qed.

Lemma exploded_genres_app l1 l2 :
  exploded_genres (l1 ++ l2) = exploded_genres l1 ++ exploded_genres l2.
Proof. unfold exploded_genres. now rewrite flat_map_app, filter_app. Qed.

Lemma rows_of_genre_app g l1 l2 :
  rows_of_genre g (l1 ++ l2) = rows_of_genre g l1 ++ rows_of_genre g l2.
Proof.
  unfold rows_of_genre. now rewrite exploded_genres_app, filter_app, map_app.
Qed.

Lemma Forall_rows_of_year (P : Movie -> Prop) y movies :
  Forall P movies -> Forall P (rows_of_year y movies).
Proof.
  unfold rows_of_year. rewrite !Forall_forall. intros H m Hin.
  apply filter_In in Hin. now apply H.
Qed.

Lemma Forall_rows_of_genre (P : Movie -> Prop) g movies :
  Forall P movies -> Forall P (rows_of_genre g movies).
Proof.
  unfold rows_of_genre, exploded_genres. rewrite !Forall_forall.
  intros H m Hin.
  apply in_map_iff in Hin. destruct Hin as [[tok m'] [<- Hin]].
  apply filter_In in Hin. destruct Hin as [Hin _].
  apply filter_In in Hin. destruct Hin as [Hin _].
  apply in_flat_map in Hin. destruct Hin as [m0 [Hm0 Hin]].
  destruct (m_genres m0) as [g0|]; [|contradiction].
  apply in_map_iff in Hin. destruct Hin as [t [[= _ <-] _]].
  now apply H.
Qed.

(** What one chunk does to the accumulator of year [y]: the new payload is
    the old one (the default when the year is new) plus the two sums over
    the chunk's rows of that year. *)
Lemma update_year_sums_get d movies y :
  let a := get_or Z.eqb year_default d y in
  let a' := get_or Z.eqb year_default (update_year_sums d movies) y in
  (y_weighted_sum a'
   == y_weighted_sum a + direct_weighted_sum (rows_of_year y movies))%Q /\
  y_votes a' = y_votes a + direct_votes (rows_of_year y movies).
Proof.
  cbv zeta. unfold update_year_sums.
  destruct (in_dec Z.eq_dec y (map fst (valid_years movies))) as [Hin|Hn].
  - assert (Hg : In (y, filter (fun r => Z.eqb (fst r) y) (valid_years movies))
                    (groupby Z.eqb Z.leb fst (valid_years movies))).
    { apply (in_groupby Z.eqb Zeqb_spec). now split. }
    unfold get_or at 1 3.
    rewrite (get_fold_groups_present Z.eqb Zeqb_spec _ _ _ _ _ _
               (NoDup_groupby_keys Z.eqb Zeqb_spec Z.leb fst _) Hg).
    rewrite valid_years_rows. simpl.
    now rewrite group_weighted_sum_direct, group_votes_direct.
  - unfold get_or at 1 3.
    rewrite (get_fold_groups_absent Z.eqb Zeqb_spec)
      by now rewrite (in_groupby_keys Z.eqb Zeqb_spec).
    rewrite <- valid_years_rows.
    rewrite (filter_absent_key Z.eqb Zeqb_spec Z.leb fst y _ Hn). simpl.
    fold (get_or Z.eqb year_default d y).
    split; [now rewrite Qplus_0_r|cbn; lia].
Qed.

Lemma update_genre_stats_get d movies g :
  let a := get_or String.eqb genre_default d g in
  let a' := get_or String.eqb genre_default (update_genre_stats d movies) g in
  (g_weighted_sum a'
   == g_weighted_sum a + direct_weighted_sum (rows_of_genre g movies))%Q /\
  g_votes a' = g_votes a + direct_votes (rows_of_genre g movies) /\
  g_count a' = g_count a + Z.of_nat (length (rows_of_genre g movies)).
Proof.
  cbv zeta. unfold update_genre_stats, rows_of_genre.
  destruct (in_dec string_dec g (map fst (exploded_genres movies)))
    as [Hin|Hn].
  - assert (Hg : In (g, filter (fun r => String.eqb (fst r) g)
                               (exploded_genres movies))
                    (groupby String.eqb String.leb fst
                             (exploded_genres movies))).
    { apply (in_groupby String.eqb Seqb_spec). now split. }
    unfold get_or at 1 3 5.
    rewrite (get_fold_groups_present String.eqb Seqb_spec _ _ _ _ _ _
               (NoDup_groupby_keys String.eqb Seqb_spec String.leb fst _) Hg).
    simpl.
    now rewrite group_weighted_sum_direct, group_votes_direct.
  - unfold get_or at 1 3 5.
    rewrite (get_fold_groups_absent String.eqb Seqb_spec)
      by now rewrite (in_groupby_keys String.eqb Seqb_spec).
    rewrite (filter_absent_key String.eqb Seqb_spec String.leb fst g _ Hn).
    simpl.
    fold (get_or String.eqb genre_default d g).
    repeat split; [now rewrite Qplus_0_r|cbn; lia|cbn; lia].
Qed.

(** * The chunk loop as a whole *)

Lemma stream_fold tn ratings chunks :
  stream tn ratings chunks
  = fold_left update_aggregators (map (movies_of_chunk tn ratings) chunks)
              empty_aggregators.
Proof.
  unfold stream. generalize empty_aggregators.
  induction chunks as [|c chunks IH]; simpl; intros s; [reflexivity|].
  apply IH.
Qed.

Lemma fold_year_sums (batches : list (list Movie)) s y :
  let a := get_or Z.eqb year_default (year_weighted_sums s) y in
  let a' := get_or Z.eqb year_default
              (year_weighted_sums (fold_left update_aggregators batches s)) y in
  (y_weighted_sum a'
   == y_weighted_sum a
      + direct_weighted_sum (rows_of_year y (concat batches)))%Q /\
  y_votes a' = y_votes a + direct_votes (rows_of_year y (concat batches)).
Proof.
  cbv zeta. revert s.
  induction batches as [|b batches IH]; simpl; intros s.
  - split; [now rewrite Qplus_0_r|cbn; lia].
  - destruct (IH (update_aggregators s b)) as [Hw Hv].
    destruct (update_year_sums_get (year_weighted_sums s) b y) as [Hw1 Hv1].
    cbv zeta in Hw1, Hv1. simpl in Hw, Hv.
    rewrite rows_of_year_app, direct_weighted_sum_app, direct_votes_app.
    split.
    + rewrite Hw, Hw1. now rewrite Qplus_assoc.
    + rewrite Hv, Hv1. lia.
Qed.

Lemma fold_genre_stats (batches : list (list Movie)) s g :
  let a := get_or String.eqb genre_default (genre_stats s) g in
  let a' := get_or String.eqb genre_default
              (genre_stats (fold_left update_aggregators batches s)) g in
  (g_weighted_sum a'
   == g_weighted_sum a
      + direct_weighted_sum (rows_of_genre g (concat batches)))%Q /\
  g_votes a' = g_votes a + direct_votes (rows_of_genre g (concat batches)) /\
  g_count a'
  = g_count a + Z.of_nat (length (rows_of_genre g (concat batches))).
Proof.
  cbv zeta. revert s.
  induction batches as [|b batches IH]; simpl; intros s.
  - repeat split; [now rewrite Qplus_0_r|cbn; lia|cbn; lia].
  - destruct (IH (update_aggregators s b)) as [Hw [Hv Hc]].
    destruct (update_genre_stats_get (genre_stats s) b g) as [Hw1 [Hv1 Hc1]].
    cbv zeta in Hw1, Hv1, Hc1. simpl in Hw, Hv, Hc.
    rewrite rows_of_genre_app, direct_weighted_sum_app, direct_votes_app,
      length_app.
    repeat split.
    + rewrite Hw, Hw1. now rewrite Qplus_assoc.
    + rewrite Hv, Hv1. lia.
    + rewrite Hc, Hc1. lia.
Qed.

Lemma fold_year_keys_NoDup (batches : list (list Movie)) s :
  NoDup (map fst (year_weighted_sums s)) ->
  NoDup (map fst (year_weighted_sums (fold_left update_aggregators batches s))).
Proof.
  revert s. induction batches as [|b batches IH]; simpl; intros s Hnd.
  - assumption.
  - apply IH. simpl. unfold update_year_sums.
    now apply (NoDup_keys_fold_groups Z.eqb Zeqb_spec).
Qed.

Lemma fold_genre_keys_NoDup (batches : list (list Movie)) s :
  NoDup (map fst (genre_stats s)) ->
  NoDup (map fst (genre_stats (fold_left update_aggregators batches s))).
Proof.
  revert s. induction batches as [|b batches IH]; simpl; intros s Hnd.
  - assumption.
  - apply IH. simpl. unfold update_genre_stats.
    now apply (NoDup_keys_fold_groups String.eqb Seqb_spec).
Qed.

(** The payload of a year after the whole stream. *)
Lemma stream_year_payload tn ratings chunks y a :
  In (y, a) (year_weighted_sums (stream tn ratings chunks)) ->
  (y_weighted_sum a
   == direct_weighted_sum (rows_of_year y (joined_rows tn ratings chunks)))%Q
  /\ y_votes a = direct_votes (rows_of_year y (joined_rows tn ratings chunks)).
Proof.
  intros Hin. rewrite stream_fold in Hin. unfold joined_rows.
  pose proof (fold_year_keys_NoDup (map (movies_of_chunk tn ratings) chunks)
                empty_aggregators (NoDup_nil _)) as Hnd.
  apply (in_get Z.eqb Zeqb_spec _ _ _ Hnd) in Hin.
  destruct (fold_year_sums (map (movies_of_chunk tn ratings) chunks)
              empty_aggregators y) as [Hw Hv].
  cbv zeta in Hw, Hv. unfold get_or in Hw, Hv. rewrite Hin in Hw, Hv.
  simpl in Hw, Hv. split; [now rewrite Hw, Qplus_0_l|lia].
Qed.

Lemma stream_year_absent tn ratings chunks y :
  ~ In y (map fst (year_weighted_sums (stream tn ratings chunks))) ->
  direct_votes (rows_of_year y (joined_rows tn ratings chunks)) = 0.
Proof.
  intros Hn. rewrite stream_fold in Hn. unfold joined_rows.
  apply (get_none_not_in Z.eqb Zeqb_spec) in Hn.
  destruct (fold_year_sums (map (movies_of_chunk tn ratings) chunks)
              empty_aggregators y) as [_ Hv].
  cbv zeta in Hv. unfold get_or in Hv. rewrite Hn in Hv.
  simpl in Hv. lia.
Qed.

(** * The finalizer *)

Lemma finalize_ok ratings s rep :
  finalize ratings s = Ok rep ->
  exists yearly genre top,
    make_yearly_ratings_df (year_weighted_sums s) = Ok yearly /\
    make_genre_df (genre_stats s) = Ok genre /\
    make_top_titles_df (top_titles_frames s) = Ok top /\
    rep = mkReport (make_movies_per_year_df (movies_per_year s))
            yearly genre top
            (make_runtime_bins_df (runtime_minutes s))
            (make_popularity_df (make_scatter_df (scatter_frames s)))
            (make_summaries ratings
               (make_movies_per_year_df (movies_per_year s))
               (runtime_minutes s))
            (runtime_minutes s).
Proof.
  unfold finalize.
  destruct (make_yearly_ratings_df (year_weighted_sums s)) as [yearly|e];
    simpl; [|discriminate].
  destruct (make_genre_df (genre_stats s)) as [genre|e]; simpl;
    [|discriminate].
  destruct (make_top_titles_df (top_titles_frames s)) as [top|e]; simpl;
    [|discriminate].
  intros [= <-]. now exists yearly, genre, top.
Qed.

Lemma frame_dropna_ok {R : Type} col (isna : R -> bool) records rows :
  frame_dropna col isna records = Ok rows ->
  rows = filter (fun r => negb (isna r)) records.
Proof. destruct records; simpl; [discriminate|now intros [= <-]]. Qed.

Lemma payload_average_some ws votes avg :
  payload_average ws votes = Some avg <->
  votes <> 0 /\ avg = (ws / inject_Z votes)%Q.
Proof.
  unfold payload_average. destruct (Z.eqb_spec votes 0) as [->|Hne].
  - split; [discriminate|tauto].
  - split; [intros [= <-]; now split|intros [_ ->]; reflexivity].
Qed.

Lemma in_yearly_ratings_df d yearly row :
  make_yearly_ratings_df d = Ok yearly ->
  (In row yearly <->
   exists y a, In (y, a) d /\ y_votes a <> 0 /\
     row = mkYearlyRating y
             (Some (y_weighted_sum a / inject_Z (y_votes a))%Q) (y_votes a)).
Proof.
  unfold make_yearly_ratings_df.
  destruct (frame_dropna _ _ _) as [rows|e] eqn:E; simpl; [|discriminate].
  intros [= <-]. apply frame_dropna_ok in E. subst rows.
  rewrite sort_by_in, filter_In. unfold yearly_rating_records.
  rewrite in_map_iff. split.
  - intros [[[y a] [<- Hin]] Hsome]. simpl in *.
    rewrite negb_involutive in Hsome.
    destruct (payload_average _ _) as [avg|] eqn:Ea; [|discriminate].
    apply payload_average_some in Ea. destruct Ea as [Hne ->].
    now exists y, a.
  - intros [y [a [Hin [Hne ->]]]].
    assert (Ea : payload_average (y_weighted_sum a) (y_votes a)
                 = Some (y_weighted_sum a / inject_Z (y_votes a))%Q)
      by now apply payload_average_some.
    split.
    + exists (y, a). simpl. now rewrite Ea.
    + simpl. reflexivity.
Qed.

(** * Yearly weighted ratings *)

(** C1. Every row of the yearly ratings table reports, for its year, the sum
    of rating times votes over the joined rows of that year with a known
    vote count, divided by the sum of their votes; the table has a row for
    a year exactly when that vote total is not zero, so a year whose total
    is zero is left out.  The result does not depend on how the titles are
    cut into chunks.  (A row without a rating adds nothing to the sum of
    products, as in [Series.sum].) *)
Theorem yearly_weighted_average_is_ratio tn ratings chunks rep :
  analyse tn ratings chunks = Ok rep ->
  (forall row, In row (yearly_ratings_df rep) ->
     let rows := rows_of_year (yr_year row) (joined_rows tn ratings chunks) in
     direct_votes rows <> 0 /\
     yr_votes row = direct_votes rows /\
     exists avg,
       yr_weighted_average_rating row = Some avg /\
       (avg == direct_weighted_sum rows / inject_Z (direct_votes rows))%Q) /\
  (forall y, In y (map yr_year (yearly_ratings_df rep)) <->
             direct_votes (rows_of_year y (joined_rows tn ratings chunks))
             <> 0).
Proof.
  unfold analyse. intros Hrep.
  apply finalize_ok in Hrep.
  destruct Hrep as [yearly [genre [top [Hy [_ [_ ->]]]]]]. simpl.
  assert (Hrow : forall row, In row yearly ->
            let rows := rows_of_year (yr_year row)
                                     (joined_rows tn ratings chunks) in
            direct_votes rows <> 0 /\
            yr_votes row = direct_votes rows /\
            exists avg,
              yr_weighted_average_rating row = Some avg /\
              (avg == direct_weighted_sum rows
                      / inject_Z (direct_votes rows))%Q).
  { intros row Hin.
    apply (in_yearly_ratings_df _ _ _ Hy) in Hin.
    destruct Hin as [y [a [Hin [Hne ->]]]]. simpl.
    destruct (stream_year_payload _ _ _ _ _ Hin) as [Hw Hv].
    rewrite <- Hv. repeat split; [assumption|].
    eexists. split; [reflexivity|]. now rewrite Hw. }
  split; [exact Hrow|].
  intros y. split.
  - intros Hin. apply in_map_iff in Hin. destruct Hin as [row [<- Hin]].
    now apply Hrow.
  - intros Hne.
    destruct (in_dec Z.eq_dec y
                (map fst (year_weighted_sums (stream tn ratings chunks))))
      as [Hin|Hn].
    + apply in_map_iff in Hin. destruct Hin as [[y' a] [Hy' Hin]].
      simpl in Hy'. subst y'.
      destruct (stream_year_payload _ _ _ _ _ Hin) as [_ Hv].
      apply in_map_iff.
      exists (mkYearlyRating y
                (Some (y_weighted_sum a / inject_Z (y_votes a))%Q)
                (y_votes a)).
      split; [reflexivity|].
      apply (in_yearly_ratings_df _ _ _ Hy).
      exists y, a. repeat split; [assumption|]. now rewrite Hv.
    + now apply stream_year_absent in Hn.
Qed.

Lemma yearly_weighted_average_is_ratio_witness :
  exists rep,
    analyse to_numeric_digits example_ratings [example_titles] = Ok rep /\
    (forall row, In row (yearly_ratings_df rep) ->
       let rows := rows_of_year (yr_year row)
                     (joined_rows to_numeric_digits example_ratings
                                  [example_titles]) in
       direct_votes rows <> 0 /\
       yr_votes row = direct_votes rows /\
       exists avg,
         yr_weighted_average_rating row = Some avg /\
         (avg == direct_weighted_sum rows / inject_Z (direct_votes rows))%Q) /\
    (forall y, In y (map yr_year (yearly_ratings_df rep)) <->
               direct_votes
                 (rows_of_year y
                    (joined_rows to_numeric_digits example_ratings
                                 [example_titles]))
               <> 0).
Proof.
  eexists. split; [vm_compute; reflexivity|].
  apply (yearly_weighted_average_is_ratio to_numeric_digits example_ratings
           [example_titles]).
  vm_compute. reflexivity.
Defined.

(** * The top titles table *)

Lemma votes_desc_leb_total a b :
  votes_desc_leb a b = true \/ votes_desc_leb b a = true.
Proof.
  unfold votes_desc_leb.
  destruct (top_numVotes a) as [x|], (top_numVotes b) as [y|]; auto.
  destruct (Z.leb_spec y x); [now left|right]. apply Z.leb_le. lia.
Qed.

Lemma votes_desc_leb_trans a b c :
  votes_desc_leb a b = true -> votes_desc_leb b c = true ->
  votes_desc_leb a c = true.
Proof.
  unfold votes_desc_leb.
  destruct (top_numVotes a) as [x|], (top_numVotes b) as [y|],
    (top_numVotes c) as [z|]; try congruence.
  rewrite !Z.leb_le. lia.
Qed.

Lemma firstn_in {A : Type} n (l : list A) x : In x (firstn n l) -> In x l.
Proof.
  revert l; induction n as [|n IH]; intros [|y l]; simpl; try tauto.
  intros [->|H]; [now left|right; now apply IH].
Qed.

Section Subsequences.
Context {A : Type}.
Variable R : A -> A -> Prop.

Lemma StronglySorted_firstn n (l : list A) :
  StronglySorted R l -> StronglySorted R (firstn n l).
Proof.
  revert l; induction n as [|n IH]; intros l Hs; simpl; [constructor|].
  destruct l as [|x l]; [constructor|].
  inversion Hs as [|? ? Hs' Hall]; subst.
  constructor; [now apply IH|].
  rewrite Forall_forall in *. intros y Hy. apply Hall.
  now apply firstn_in in Hy.
Qed.

End Subsequences.

Lemma NoDup_firstn_keys {A B : Type} (f : A -> B) n (l : list A) :
  NoDup (map f l) -> NoDup (map f (firstn n l)).
Proof.
  revert l; induction n as [|n IH]; intros l Hnd; simpl; [constructor|].
  destruct l as [|x l]; simpl; [constructor|].
  inversion Hnd as [|? ? Hnotin Hnd']; subst.
  constructor; [|now apply IH].
  intros Hin. apply Hnotin.
  apply in_map_iff in Hin. destruct Hin as [y [<- Hy]].
  apply in_map. now apply firstn_in in Hy.
Qed.

Lemma drop_duplicates_in seen rows r :
  In r (drop_duplicates seen rows) ->
  In r rows /\ ~ In (top_tconst r) seen.
Proof.
  revert seen; induction rows as [|x rows IH]; simpl; intros seen;
    [tauto|].
  destruct (existsb (String.eqb (top_tconst x)) seen) eqn:E.
  - intros H. apply IH in H. tauto.
  - intros [<-|H].
    + split; [now left|]. intros Hin.
      assert (existsb (String.eqb (top_tconst x)) seen = true); [|congruence].
      apply existsb_exists. exists (top_tconst x).
      split; [assumption|apply String.eqb_refl].
    + apply IH in H. simpl in H. tauto.
Qed.

Lemma drop_duplicates_NoDup seen rows :
  NoDup (map top_tconst (drop_duplicates seen rows)).
Proof.
  revert seen; induction rows as [|x rows IH]; simpl; intros seen;
    [constructor|].
  destruct (existsb (String.eqb (top_tconst x)) seen); [apply IH|].
  simpl. constructor; [|apply IH].
  intros Hin. apply in_map_iff in Hin. destruct Hin as [r [Heq Hr]].
  apply drop_duplicates_in in Hr. destruct Hr as [_ Hn].
  apply Hn. rewrite Heq. now left.
Qed.

Lemma drop_duplicates_sorted (R : TopRow -> TopRow -> Prop) seen rows :
  StronglySorted R rows -> StronglySorted R (drop_duplicates seen rows).
Proof.
  revert seen; induction rows as [|x rows IH]; simpl; intros seen Hs;
    [constructor|].
  inversion Hs as [|? ? Hs' Hall]; subst.
  destruct (existsb (String.eqb (top_tconst x)) seen); [now apply IH|].
  constructor; [now apply IH|].
  rewrite Forall_forall in *. intros y Hy. apply Hall.
  now apply drop_duplicates_in in Hy.
Qed.

Lemma known_votes_sorted (t : list TopRow) :
  Forall (fun r => top_numVotes r <> None) t ->
  StronglySorted (fun a b => votes_desc_leb a b = true) t ->
  exists vs, map top_numVotes t = map Some vs /\
             StronglySorted (fun x y => y <= x) vs.
Proof.
  induction t as [|r t IH]; intros Hk Hs.
  - exists []. split; [reflexivity|constructor].
  - inversion Hk as [|? ? Hr Hk']; subst.
    inversion Hs as [|? ? Hs' Hall]; subst.
    destruct (IH Hk' Hs') as [vs [Hvs Hsorted]].
    destruct (top_numVotes r) as [v|] eqn:Ev; [|congruence].
    exists (v :: vs). simpl. rewrite Ev, Hvs. split; [reflexivity|].
    constructor; [assumption|].
    rewrite Forall_forall. intros w Hw.
    assert (Hin : In (Some w) (map top_numVotes t))
      by (rewrite Hvs; now apply in_map).
    apply in_map_iff in Hin. destruct Hin as [r' [Hr' Hin]].
    rewrite Forall_forall in Hall. specialize (Hall r' Hin).
    unfold votes_desc_leb in Hall. rewrite Ev, Hr' in Hall.
    now apply Z.leb_le.
Qed.

Lemma Ok_inj {A : Type} (a b : A) : Ok a = Ok b -> a = b.
Proof. now intros [= ->]. Qed.

Lemma make_top_titles_df_properties frames t :
  make_top_titles_df frames = Ok t ->
  NoDup (map top_tconst t) /\
  Forall (fun r => top_numVotes r <> None) t /\
  (exists vs, map top_numVotes t = map Some vs /\
              StronglySorted (fun x y => y <= x) vs) /\
  (length t <= 20)%nat.
Proof.
  unfold make_top_titles_df.
  destruct (pd_concat frames) as [all|e]; unfold bind; [|discriminate].
  intros Ht. apply Ok_inj in Ht. subst t.
  set (known := filter (fun r => is_some (top_numVotes r)) all).
  assert (Hknown : Forall (fun r => top_numVotes r <> None)
                     (firstn 20 (drop_duplicates []
                                   (sort_by votes_desc_leb known)))).
  { rewrite Forall_forall. intros r Hr.
    apply firstn_in in Hr. apply drop_duplicates_in in Hr.
    destruct Hr as [Hr _]. apply sort_by_in in Hr.
    apply filter_In in Hr. destruct Hr as [_ Hr].
    simpl in Hr. now destruct (top_numVotes r). }
  repeat split.
  - apply NoDup_firstn_keys, drop_duplicates_NoDup.
  - exact Hknown.
  - apply known_votes_sorted; [exact Hknown|].
    apply StronglySorted_firstn, drop_duplicates_sorted.
    apply sort_by_sorted;
      [apply votes_desc_leb_total|apply votes_desc_leb_trans].
  - apply firstn_le_length.
Qed.

(** C2. The top-by-votes table has no two rows with the same identifier,
    lists its vote counts in descending order, has at most 20 rows and no
    row with a missing vote count. *)
Theorem top_titles_table_properties tn ratings chunks rep :
  analyse tn ratings chunks = Ok rep ->
  NoDup (map top_tconst (top_titles_df rep)) /\
  Forall (fun r => top_numVotes r <> None) (top_titles_df rep) /\
  (exists vs, map top_numVotes (top_titles_df rep) = map Some vs /\
              StronglySorted (fun x y => y <= x) vs) /\
  (length (top_titles_df rep) <= 20)%nat.
Proof.
  unfold analyse. intros Hrep. apply finalize_ok in Hrep.
  destruct Hrep as [yearly [genre [top [_ [_ [Htop ->]]]]]]. simpl.
  now apply make_top_titles_df_properties in Htop.
Qed.

Lemma top_titles_table_properties_witness :
  exists rep,
    analyse to_numeric_digits example_ratings [example_titles] = Ok rep /\
    NoDup (map top_tconst (top_titles_df rep)) /\
    Forall (fun r => top_numVotes r <> None) (top_titles_df rep) /\
    (exists vs, map top_numVotes (top_titles_df rep) = map Some vs /\
                StronglySorted (fun x y => y <= x) vs) /\
    (length (top_titles_df rep) <= 20)%nat.
Proof.
  eexists. split; [vm_compute; reflexivity|].
  apply (top_titles_table_properties to_numeric_digits example_ratings
           [example_titles]).
  vm_compute. reflexivity.
Defined.

(** * Counting by category *)

Lemma Zsum_map_add {A : Type} (f g : A -> Z) (l : list A) :
  Zsum (map (fun a => f a + g a) l) = Zsum (map f l) + Zsum (map g l).
Proof. induction l as [|a l IH]; simpl; lia. Qed.

Lemma Zsum_map_zero {A : Type} (f : A -> Z) (l : list A) :
  (forall a, f a = 0) -> Zsum (map f l) = 0.
Proof. intros H. induction l as [|a l IH]; simpl; [|rewrite H]; lia. Qed.

Lemma Zsum_indicator j a n :
  Zsum (map (fun i => if Nat.eqb j i then 1 else 0) (seq a n))
  = if (Nat.leb a j && Nat.ltb j (a + n))%bool then 1 else 0.
Proof.
  revert a; induction n as [|n IH]; intros a; simpl.
  - destruct (Nat.leb_spec a j), (Nat.ltb_spec j (a + 0)); simpl; lia.
  - rewrite IH.
    destruct (Nat.eqb_spec j a), (Nat.leb_spec a j), (Nat.leb_spec (S a) j),
      (Nat.ltb_spec j (S a + n)), (Nat.ltb_spec j (a + S n)); simpl; lia.
Qed.

Lemma members_of_cons {R : Type} (code : R -> option nat) r l i :
  Z.of_nat (length (members_of code (r :: l) i))
  = (match code r with
     | Some j => if Nat.eqb j i then 1 else 0
     | None => 0
     end) + Z.of_nat (length (members_of code l i)).
Proof.
  unfold members_of. cbn [filter].
  destruct (code r) as [j|]; [|lia].
  destruct (Nat.eqb j i); cbn [length]; lia.
Qed.

(** When every row has a category below [n], the categories partition the
    rows: the per-category counts add up to the number of rows. *)
Lemma members_of_partition {R : Type} (code : R -> option nat) n l :
  Forall (fun r => exists i, code r = Some i /\ (i < n)%nat) l ->
  Zsum (map (fun i => Z.of_nat (length (members_of code l i))) (seq 0 n))
  = Z.of_nat (length l).
Proof.
  induction 1 as [|r l [j [Hj Hlt]] _ IH].
  - now rewrite Zsum_map_zero.
  - rewrite (map_ext _ _ (members_of_cons code r l)).
    rewrite Zsum_map_add, IH, Hj, Zsum_indicator.
    destruct (Nat.leb_spec 0 j), (Nat.ltb_spec j (0 + n)); simpl length;
      simpl andb; cbv iota; lia.
Qed.

(** Rows without a category are counted nowhere. *)
Lemma members_of_le {R : Type} (code : R -> option nat) n l :
  Zsum (map (fun i => Z.of_nat (length (members_of code l i))) (seq 0 n))
  = Z.of_nat (length (filter (fun r => match code r with
                                       | Some j => Nat.ltb j n
                                       | None => false
                                       end) l)).
Proof.
  induction l as [|r l IH].
  - now rewrite Zsum_map_zero.
  - rewrite (map_ext _ _ (members_of_cons code r l)).
    rewrite Zsum_map_add, IH. simpl filter.
    destruct (code r) as [j|].
    + rewrite Zsum_indicator.
      destruct (Nat.leb_spec 0 j), (Nat.ltb_spec j (0 + n)),
        (Nat.ltb_spec j n); simpl length; simpl andb; cbv iota; lia.
    + now rewrite Zsum_map_zero.
Qed.

(** * The popularity bands *)






Lemma make_scatter_df_concat frames : make_scatter_df frames = concat frames.
Proof. now destruct frames. Qed.






(** C5, as stated, fails: with one collected title of 60,000 votes the
    table has rows whose count is zero. *)
Lemma popularity_table_has_empty_bands :
  ~ (forall rep row,
       analyse to_numeric_digits popular_ratings [[example_title_1]] = Ok rep ->
       In row (popularity_df rep) -> 1 <= title_count row).
Proof.
  intros H.
  destruct (analyse to_numeric_digits popular_ratings [[example_title_1]])
    as [rep|e] eqn:E; [|vm_compute in E; discriminate].
  specialize (H rep (mkPopularityRow "100k-200k" 0 None None) eq_refl).
  vm_compute in E. injection E as <-.
  simpl in H. assert (1 <= 0); [|lia].
  apply H. right. left. reflexivity.
Qed.

(** C5, amended. Without a collected row the popularity table is empty.
    Otherwise it has one row for each of the seven bands, in band order,
    whether the band has members or not; the count of a band is the number
    of its members, and a band without members is listed with count zero
    and with undefined mean rating and median votes. *)
Theorem popularity_table_lists_every_band (r : ScatterRow)
  (l : list ScatterRow) :
  make_popularity_df [] = [] /\
  map vote_band (make_popularity_df (r :: l)) = vote_labels /\
  map title_count (make_popularity_df (r :: l))
  = map (fun i => Z.of_nat (length (band_members (r :: l) i))) (seq 0 7) /\
  (forall row, In row (make_popularity_df (r :: l)) ->
     title_count row = 0 ->
     avg_rating row = None /\ median_votes row = None).
Proof.
  split; [reflexivity|].
  split; [reflexivity|].
  split; [reflexivity|].
  intros row Hin Hz. unfold make_popularity_df in Hin.
  apply in_map_iff in Hin. destruct Hin as [[i lab] [<- _]].
  cbn [title_count avg_rating median_votes fst snd] in *.
  destruct (band_members (r :: l) i);
    [split; reflexivity|cbn [length] in Hz; lia].
Qed.

(** * The rating index *)

(** C9, as stated, fails: a ratings table that lists an identifier twice
    joins the title of that identifier twice. *)
Lemma duplicate_ratings_join_twice :
  ~ (length (movies_of_chunk to_numeric_digits duplicate_ratings
                             [example_title_1]) <= 1)%nat.
Proof. intros H. vm_compute in H. lia. Qed.

Lemma join_inner_one ratings t :
  length (join_inner ratings [t])
  = count_occ string_dec (map r_tconst ratings) (t_tconst t).
Proof.
  unfold join_inner. simpl. rewrite app_nil_r, length_map.
  induction ratings as [|r ratings IH]; simpl; [reflexivity|].
  destruct (String.eqb_spec (r_tconst r) (t_tconst t)) as [E|E];
    destruct (string_dec (r_tconst r) (t_tconst t)); simpl; congruence.
Qed.

(** C9, amended. The rating index keeps every row of the ratings table,
    repeated identifiers included, and nothing raises.  A movie title is
    joined with every rating record of its identifier, once each and in
    the order of the ratings table: its joined rows are exactly these
    records' rating and votes attached to the title, so there are as many
    of them as the ratings table has rows with that identifier.  A title
    gets at most one rating record exactly when its identifier occurs at
    most once in the ratings table, which is the case for every title when
    the identifiers of the ratings table are distinct. *)
Theorem join_pairs_every_rating_record tn ratings t :
  is_movie t = true ->
  movies_of_chunk tn ratings [t]
  = map (fun r => joined_movie tn (t, r))
        (filter (fun r => String.eqb (r_tconst r) (t_tconst t)) ratings) /\
  map (fun m => (tconst m, averageRating m, numVotes m))
      (movies_of_chunk tn ratings [t])
  = map (fun r => (t_tconst t, r_averageRating r, Some (r_numVotes r)))
        (filter (fun r => String.eqb (r_tconst r) (t_tconst t)) ratings) /\
  length (movies_of_chunk tn ratings [t])
  = count_occ string_dec (map r_tconst ratings) (t_tconst t) /\
  ((length (movies_of_chunk tn ratings [t]) <= 1)%nat <->
   (count_occ string_dec (map r_tconst ratings) (t_tconst t) <= 1)%nat) /\
  (NoDup (map r_tconst ratings) ->
   (length (movies_of_chunk tn ratings [t]) <= 1)%nat).
Proof.
  intros Hm.
  assert (Hrows : movies_of_chunk tn ratings [t]
                  = map (fun r => joined_movie tn (t, r))
                        (filter (fun r => String.eqb (r_tconst r) (t_tconst t))
                                ratings)).
  { unfold movies_of_chunk, join_inner. cbn [filter]. rewrite Hm.
    cbn [flat_map]. now rewrite app_nil_r, map_map. }
  assert (Hlen : length (movies_of_chunk tn ratings [t])
                 = count_occ string_dec (map r_tconst ratings) (t_tconst t)).
  { unfold movies_of_chunk. cbn [filter]. rewrite Hm, length_map.
    apply join_inner_one. }
  split; [exact Hrows|]. split.
  - rewrite Hrows, map_map. reflexivity.
  - split; [exact Hlen|]. split.
    + now rewrite Hlen.
    + intros Hnd. rewrite Hlen.
      now apply (NoDup_count_occ string_dec).
Qed.

Lemma join_pairs_every_rating_record_witness :
  is_movie example_title_1 = true /\
  movies_of_chunk to_numeric_digits duplicate_ratings [example_title_1]
  = map (fun r => joined_movie to_numeric_digits (example_title_1, r))
        (filter (fun r => String.eqb (r_tconst r) (t_tconst example_title_1))
                duplicate_ratings) /\
  map (fun m => (tconst m, averageRating m, numVotes m))
      (movies_of_chunk to_numeric_digits duplicate_ratings [example_title_1])
  = map (fun r => (t_tconst example_title_1, r_averageRating r,
                   Some (r_numVotes r)))
        (filter (fun r => String.eqb (r_tconst r) (t_tconst example_title_1))
                duplicate_ratings) /\
  length (movies_of_chunk to_numeric_digits duplicate_ratings
                          [example_title_1])
  = count_occ string_dec (map r_tconst duplicate_ratings)
              (t_tconst example_title_1) /\
  ((length (movies_of_chunk to_numeric_digits duplicate_ratings
                            [example_title_1]) <= 1)%nat <->
   (count_occ string_dec (map r_tconst duplicate_ratings)
              (t_tconst example_title_1) <= 1)%nat) /\
  (NoDup (map r_tconst duplicate_ratings) ->
   (length (movies_of_chunk to_numeric_digits duplicate_ratings
                            [example_title_1]) <= 1)%nat).
Proof.
  split; [reflexivity|].
  apply (join_pairs_every_rating_record to_numeric_digits duplicate_ratings
           example_title_1).
  reflexivity.
Defined.

(** * Movies per year *)

Lemma filter_perm {A : Type} (f : A -> bool) (l l' : list A) :
  Permutation l l' -> Permutation (filter f l) (filter f l').
Proof.
  induction 1 as [|x l l' _ IH|x y l|l l' l'' _ IH1 _ IH2]; simpl.
  - constructor.
  - destruct (f x); [now constructor|assumption].
  - destruct (f x), (f y); try reflexivity. apply perm_swap.
  - now transitivity (filter f l').
Qed.

Lemma movies_per_year_df_perm c :
  Permutation (make_movies_per_year_df c)
              (filter (fun r => Z.leb 1900 (fst r)) c).
Proof.
  unfold make_movies_per_year_df. apply filter_perm.
  now rewrite !sort_by_perm.
Qed.

(** C10. The movies-per-year table holds exactly the entries of the year
    counter whose year is at least 1900, so the entries of earlier years
    are dropped, and [total_rated_movies] is the sum of the counts of the
    years from 1900 on only. *)
Theorem movies_per_year_from_1900 tn ratings chunks rep :
  analyse tn ratings chunks = Ok rep ->
  let counter := movies_per_year (stream tn ratings chunks) in
  Forall (fun r => 1900 <= fst r) (movies_per_year_df rep) /\
  (forall y c, In (y, c) (movies_per_year_df rep) <->
               In (y, c) counter /\ 1900 <= y) /\
  total_rated_movies (summaries rep)
  = Zsum (map snd (filter (fun r => Z.leb 1900 (fst r)) counter)).
Proof.
  unfold analyse. intros Hrep. apply finalize_ok in Hrep.
  destruct Hrep as [yearly [genre [top [_ [_ [_ ->]]]]]]. simpl.
  set (counter := movies_per_year (stream tn ratings chunks)).
  pose proof (movies_per_year_df_perm counter) as Hperm.
  assert (Hin : forall y c, In (y, c) (make_movies_per_year_df counter) <->
                            In (y, c) counter /\ 1900 <= y).
  { intros y c. split.
    - intros H. apply (Permutation_in _ Hperm) in H.
      apply filter_In in H. simpl in H. now rewrite Z.leb_le in H.
    - intros [H Hy]. apply (Permutation_in _ (Permutation_sym Hperm)).
      apply filter_In. simpl. now rewrite Z.leb_le. }
  split; [|split].
  - rewrite Forall_forall. intros [y c] H. apply Hin in H. simpl. tauto.
  - exact Hin.
  - apply Zsum_perm. now apply Permutation_map.
Qed.

Lemma movies_per_year_from_1900_witness :
  exists rep,
    analyse to_numeric_digits example_ratings [example_titles] = Ok rep /\
    let counter :=
      movies_per_year
        (stream to_numeric_digits example_ratings [example_titles]) in
    Forall (fun r => 1900 <= fst r) (movies_per_year_df rep) /\
    (forall y c, In (y, c) (movies_per_year_df rep) <->
                 In (y, c) counter /\ 1900 <= y) /\
    total_rated_movies (summaries rep)
    = Zsum (map snd (filter (fun r => Z.leb 1900 (fst r)) counter)).
Proof.
  eexists. split; [vm_compute; reflexivity|].
  apply (movies_per_year_from_1900 to_numeric_digits example_ratings
           [example_titles]).
  vm_compute. reflexivity.
Defined.

(** A movie of 1895 is counted by the chunk loop and left out of both the
    table and the total. *)
Example early_year_is_dropped :
  movies_per_year
    (stream to_numeric_digits example_ratings
            [[example_title_1; early_title]])
  = [(1895, 1); (2000, 1)] /\
  exists rep,
    analyse to_numeric_digits example_ratings
            [[example_title_1; early_title]] = Ok rep /\
    movies_per_year_df rep = [(2000, 1)] /\
    total_rated_movies (summaries rep) = 1.
Proof.
  split; [vm_compute; reflexivity|].
  eexists. split; [vm_compute; reflexivity|]. split; reflexivity.
Qed.

(** * Finalizing without joined rows *)

Lemma update_year_sums_nil d : update_year_sums d [] = d.
Proof. reflexivity. Qed.

Lemma stream_without_rows tn ratings chunks :
  Forall (fun c => movies_of_chunk tn ratings c = []) chunks ->
  year_weighted_sums (stream tn ratings chunks) = [].
Proof.
  rewrite stream_fold. intros H.
  assert (Hgen : forall s, year_weighted_sums s = [] ->
            year_weighted_sums
              (fold_left update_aggregators
                         (map (movies_of_chunk tn ratings) chunks) s) = []).
  { induction H as [|c chunks Hc _ IH]; simpl; intros s Hs; [assumption|].
    apply IH. rewrite Hc. simpl. now rewrite update_year_sums_nil. }
  now apply Hgen.
Qed.

(** A stream that gives no joined row makes the finalizer raise: the frame
    built from the empty list of yearly records has no column to drop
    missing values on. *)
Lemma analyse_without_rows_raises tn ratings chunks :
  Forall (fun c => movies_of_chunk tn ratings c = []) chunks ->
  analyse tn ratings chunks = Raise (KeyError ["weighted_average_rating"]).
Proof.
  intros H. unfold analyse, finalize.
  now rewrite (stream_without_rows _ _ _ H).
Qed.

(** C8. The code does not finalize a stream without joined rows: with a
    single movie that has no rating record, and also with no chunk at all,
    [analyse] raises [KeyError]; and it raises as well when rows were
    joined but none carries a genre. *)
Theorem finalize_raises_on_empty_accumulators tn :
  analyse tn example_ratings [[unrated_title]]
  = Raise (KeyError ["weighted_average_rating"]) /\
  analyse tn example_ratings []
  = Raise (KeyError ["weighted_average_rating"]) /\
  analyse tn example_ratings [[genreless_title]]
  = Raise (KeyError ["weighted_average_rating"]).
Proof.
  split; [|split].
  - apply analyse_without_rows_raises. repeat constructor.
  - apply analyse_without_rows_raises. constructor.
  - unfold analyse, finalize, stream. cbn [fold_left].
    unfold movies_of_chunk. cbn.
    destruct (tn "2000") as [y|]; cbn.
    + reflexivity.
    + reflexivity.
Qed.

(** The statistics of an empty runtime collection and the tables of empty
    collections, where the finalizer gets that far. *)
Lemma empty_collections_give_undefined_statistics ratings mpy :
  make_runtime_bins_df [] = [] /\
  make_popularity_df (make_scatter_df []) = [] /\
  median_runtime (make_summaries ratings mpy []) = None /\
  runtime_p10 (make_summaries ratings mpy []) = None /\
  runtime_p25 (make_summaries ratings mpy []) = None /\
  runtime_p75 (make_summaries ratings mpy []) = None /\
  runtime_p90 (make_summaries ratings mpy []) = None /\
  share_over_120_min (make_summaries ratings mpy []) = None.
Proof. repeat split. Qed.

(** * The worked example *)

(** C6. On the two ratings and the two titles of the example the pipeline
    reports the weighted rating 22/3 = 7.333... for the year 2000, 22/3 for
    the genre Drama and 6 for the genre Comedy, the second title counting
    for both of its genres, and two movies for the year 2000; the same
    holds when the two titles arrive in two chunks. *)
Theorem worked_example :
  example_outcome
    (analyse to_numeric_digits example_ratings [example_titles]) /\
  example_outcome
    (analyse to_numeric_digits example_ratings
             [[example_title_1]; [example_title_2]]).
Proof.
  split; unfold example_outcome;
    do 4 eexists;
    (split; [vm_compute; reflexivity|]);
    (split; [vm_compute; reflexivity|]);
    (split; [reflexivity|]);
    (split; [vm_compute; reflexivity|]);
    (split; [reflexivity|]);
    (split; [vm_compute; reflexivity|]);
    (split; [reflexivity|]);
    (split; vm_compute; [reflexivity|]);
    split; reflexivity.
Qed.

(** * Monotone accumulation *)

Lemma keys_kept_by_fold_groups {K V G : Type} (eqb : K -> K -> bool)
  (eqb_spec : forall a b, eqb a b = true <-> a = b)
  (dflt : V) (F : G -> V -> V) (groups : list (K * G)) (d : list (K * V)) k :
  In k (map fst d) -> In k (map fst (fold_groups eqb dflt F groups d)).
Proof.
  unfold fold_groups. revert d.
  induction groups as [|[k0 g0] groups IH]; simpl; intros d Hin.
  - assumption.
  - apply IH. apply (in_keys_upsert eqb eqb_spec). now right.
Qed.

Lemma get_some_of_key {K V : Type} (eqb : K -> K -> bool)
  (eqb_spec : forall a b, eqb a b = true <-> a = b)
  (d : list (K * V)) k :
  In k (map fst d) -> exists v, get eqb d k = Some v.
Proof.
  intros Hin. destruct (get eqb d k) as [v|] eqn:E; [now exists v|].
  now apply (get_none_not_in eqb eqb_spec) in E.
Qed.

(** One batch update, from any aggregators: a key that is present stays
    present, and its new payload is the old one plus the sum of rating
    times votes and the sum of votes over the batch's rows of that key. *)
Lemma update_aggregators_grows s movies :
  Forall nonneg_row movies ->
  (forall y a,
     get Z.eqb (year_weighted_sums s) y = Some a ->
     exists a',
       get Z.eqb (year_weighted_sums (update_aggregators s movies)) y
       = Some a' /\
       (y_weighted_sum a <= y_weighted_sum a')%Q /\
       y_votes a <= y_votes a' /\
       (y_weighted_sum a'
        == y_weighted_sum a + direct_weighted_sum (rows_of_year y movies))%Q
       /\ y_votes a' = y_votes a + direct_votes (rows_of_year y movies)) /\
  (forall g a,
     get String.eqb (genre_stats s) g = Some a ->
     exists a',
       get String.eqb (genre_stats (update_aggregators s movies)) g
       = Some a' /\
       (g_weighted_sum a <= g_weighted_sum a')%Q /\
       g_votes a <= g_votes a' /\
       (g_weighted_sum a'
        == g_weighted_sum a + direct_weighted_sum (rows_of_genre g movies))%Q
       /\ g_votes a' = g_votes a + direct_votes (rows_of_genre g movies)).
Proof.
  intros Hnn. split.
  - intros y a Hget.
    assert (Hkey : In y (map fst (year_weighted_sums
                                    (update_aggregators s movies)))).
    { simpl. unfold update_year_sums.
      apply (keys_kept_by_fold_groups Z.eqb Zeqb_spec).
      apply (get_in Z.eqb Zeqb_spec) in Hget.
      now apply (in_map fst) in Hget. }
    destruct (get_some_of_key Z.eqb Zeqb_spec _ _ Hkey) as [a' Ha'].
    exists a'. split; [exact Ha'|].
    destruct (update_year_sums_get (year_weighted_sums s) movies y)
      as [Hw Hv].
    cbv zeta in Hw, Hv. unfold get_or in Hw, Hv. simpl in Ha'.
    rewrite Hget, Ha' in Hw, Hv.
    pose proof (direct_weighted_sum_nonneg _
                  (Forall_rows_of_year _ y _ Hnn)) as Hw0.
    pose proof (direct_votes_nonneg _ (Forall_rows_of_year _ y _ Hnn))
      as Hv0.
    repeat split; try assumption; [|lia].
    rewrite Hw. rewrite <- (Qplus_0_r (y_weighted_sum a)) at 1.
    now apply Qplus_le_r.
  - intros g a Hget.
    assert (Hkey : In g (map fst (genre_stats
                                    (update_aggregators s movies)))).
    { simpl. unfold update_genre_stats.
      apply (keys_kept_by_fold_groups String.eqb Seqb_spec).
      apply (get_in String.eqb Seqb_spec) in Hget.
      now apply (in_map fst) in Hget. }
    destruct (get_some_of_key String.eqb Seqb_spec _ _ Hkey) as [a' Ha'].
    exists a'. split; [exact Ha'|].
    destruct (update_genre_stats_get (genre_stats s) movies g)
      as [Hw [Hv _]].
    cbv zeta in Hw, Hv. unfold get_or in Hw, Hv. simpl in Ha'.
    rewrite Hget, Ha' in Hw, Hv.
    pose proof (direct_weighted_sum_nonneg _
                  (Forall_rows_of_genre _ g _ Hnn)) as Hw0.
    pose proof (direct_votes_nonneg _ (Forall_rows_of_genre _ g _ Hnn))
      as Hv0.
    repeat split; try assumption; [|lia].
    rewrite Hw. rewrite <- (Qplus_0_r (g_weighted_sum a)) at 1.
    now apply Qplus_le_r.
Qed.

Lemma stream_snoc tn ratings chunks chunk :
  stream tn ratings (chunks ++ [chunk])
  = update_aggregators (stream tn ratings chunks)
                       (movies_of_chunk tn ratings chunk).
Proof. unfold stream. now rewrite fold_left_app. Qed.

Lemma movies_of_chunk_nonneg tn ratings chunk :
  Forall nonneg_rating ratings ->
  Forall nonneg_row (movies_of_chunk tn ratings chunk).
Proof.
  intros H. rewrite Forall_forall in *. intros m Hm.
  unfold movies_of_chunk in Hm. apply in_map_iff in Hm.
  destruct Hm as [[t r] [<- Hin]].
  unfold join_inner in Hin. apply in_flat_map in Hin.
  destruct Hin as [t' [_ Hin]]. apply in_map_iff in Hin.
  destruct Hin as [r' [[= -> ->] Hr]]. apply filter_In in Hr.
  destruct (H r (proj1 Hr)) as [Hx Hv].
  split; simpl; [exact Hx|]. now intros v [= <-].
Qed.

(** C7. While streaming, one more batch never lowers a stored weighted sum
    or vote total, for a year or for a genre, when the ratings and vote
    counts of the ratings table are not negative: a key that is present
    stays present, and its new payload is the old one plus the sum of
    rating times votes and the sum of votes over the batch's rows of that
    key.  The payloads hold these two running sums (and, for a genre, the
    running count) and no average; an average is only computed by
    [payload_average] in the finalizer. *)
Theorem accumulators_only_grow tn ratings chunks chunk :
  Forall nonneg_rating ratings ->
  let before := stream tn ratings chunks in
  let after := stream tn ratings (chunks ++ [chunk]) in
  let batch := movies_of_chunk tn ratings chunk in
  (forall y a,
     get Z.eqb (year_weighted_sums before) y = Some a ->
     exists a',
       get Z.eqb (year_weighted_sums after) y = Some a' /\
       (y_weighted_sum a <= y_weighted_sum a')%Q /\
       y_votes a <= y_votes a' /\
       (y_weighted_sum a'
        == y_weighted_sum a + direct_weighted_sum (rows_of_year y batch))%Q
       /\ y_votes a' = y_votes a + direct_votes (rows_of_year y batch)) /\
  (forall g a,
     get String.eqb (genre_stats before) g = Some a ->
     exists a',
       get String.eqb (genre_stats after) g = Some a' /\
       (g_weighted_sum a <= g_weighted_sum a')%Q /\
       g_votes a <= g_votes a' /\
       (g_weighted_sum a'
        == g_weighted_sum a + direct_weighted_sum (rows_of_genre g batch))%Q
       /\ g_votes a' = g_votes a + direct_votes (rows_of_genre g batch)).
Proof.
  intros Hnn. cbv zeta. rewrite stream_snoc.
  apply update_aggregators_grows. now apply movies_of_chunk_nonneg.
Qed.

Lemma example_ratings_nonneg : Forall nonneg_rating example_ratings.
Proof.
  repeat constructor; simpl; try lia; intros ? [= <-]; discriminate.
Defined.

Lemma accumulators_only_grow_witness :
  Forall nonneg_rating example_ratings /\
  let before :=
    stream to_numeric_digits example_ratings [[example_title_1]] in
  let after :=
    stream to_numeric_digits example_ratings
           ([[example_title_1]] ++ [[example_title_2]]) in
  let batch :=
    movies_of_chunk to_numeric_digits example_ratings [example_title_2] in
  (forall y a,
     get Z.eqb (year_weighted_sums before) y = Some a ->
     exists a',
       get Z.eqb (year_weighted_sums after) y = Some a' /\
       (y_weighted_sum a <= y_weighted_sum a')%Q /\
       y_votes a <= y_votes a' /\
       (y_weighted_sum a'
        == y_weighted_sum a + direct_weighted_sum (rows_of_year y batch))%Q
       /\ y_votes a' = y_votes a + direct_votes (rows_of_year y batch)) /\
  (forall g a,
     get String.eqb (genre_stats before) g = Some a ->
     exists a',
       get String.eqb (genre_stats after) g = Some a' /\
       (g_weighted_sum a <= g_weighted_sum a')%Q /\
       g_votes a <= g_votes a' /\
       (g_weighted_sum a'
        == g_weighted_sum a + direct_weighted_sum (rows_of_genre g batch))%Q
       /\ g_votes a' = g_votes a + direct_votes (rows_of_genre g batch)).
Proof.
  split; [exact example_ratings_nonneg|].
  apply (accumulators_only_grow to_numeric_digits example_ratings
           [[example_title_1]] [example_title_2]).
  exact example_ratings_nonneg.
Defined.

(** * The runtime distribution *)

Section CutFacts.
Context {E X : Type}.
Variable edge_le : E -> X -> bool.

Lemma searchsorted_right_le bins x :
  (searchsorted_right edge_le bins x <= length bins)%nat.
Proof.
  induction bins as [|e bins IH]; simpl; [lia|].
  destruct (edge_le e x); lia.
Qed.

Lemma searchsorted_right_full bins x :
  searchsorted_right edge_le bins x = length bins ->
  Forall (fun e => edge_le e x = true) bins.
Proof.
  induction bins as [|e bins IH]; simpl; intros H; [constructor|].
  destruct (edge_le e x) eqn:Ee; [|discriminate].
  constructor; [assumption|]. apply IH. lia.
Qed.

(** A value that is not left of the first edge and is left of the last
    one gets a bin, and the bin is one of the [length bins - 1] bins. *)
Lemma cut_in_range e bins last x :
  edge_le e x = true -> edge_le last x = false ->
  exists i, cut edge_le (e :: bins ++ [last]) (Some x) = Some i /\
            (i < length (bins ++ [last]))%nat.
Proof.
  intros He Hlast. unfold cut.
  pose proof (searchsorted_right_le (e :: bins ++ [last]) x) as Hle.
  pose proof (searchsorted_right_full (e :: bins ++ [last]) x) as Hfull.
  remember (searchsorted_right edge_le (e :: bins ++ [last]) x) as ids.
  assert (Hpos : (1 <= ids)%nat).
  { subst ids. simpl. rewrite He. lia. }
  assert (Hne : ids <> length (e :: bins ++ [last])).
  { intros Heq. specialize (Hfull Heq).
    rewrite Forall_forall in Hfull.
    assert (edge_le last x = true); [|congruence].
    apply Hfull. right. apply in_or_app. right. now left. }
  destruct (Nat.eqb_spec ids 0) as [H0|_]; [lia|].
  destruct (Nat.eqb_spec ids (length (e :: bins ++ [last]))) as [H1|_];
    [contradiction|].
  simpl. exists (ids - 1)%nat. split; [reflexivity|].
  simpl in Hle, Hne. lia.
Qed.
End CutFacts.

Lemma Qltb_true a b : Qltb a b = true <-> (a < b)%Q.
Proof.
  unfold Qltb. rewrite negb_true_iff. split.
  - intros H. apply Qnot_le_lt. intros Hle.
    apply Qle_bool_iff in Hle. congruence.
  - intros H. destruct (Qle_bool b a) eqn:E; [|reflexivity].
    apply Qle_bool_iff in E. now apply Qle_not_lt in E.
Qed.

Lemma Qle_bool_false a b : Qle_bool a b = false <-> (b < a)%Q.
Proof.
  rewrite <- Qltb_true. unfold Qltb. now rewrite negb_true_iff.
Qed.

Lemma Qmaximum_ge l m :
  (m <= Qmaximum m l)%Q /\ Forall (fun v => v <= Qmaximum m l)%Q l.
Proof.
  unfold Qmaximum. revert m.
  induction l as [|y l IH]; simpl; intros m.
  - split; [apply Qle_refl|constructor].
  - destruct (Qltb m y) eqn:E.
    + destruct (IH y) as [Hy Hl]. apply Qltb_true in E.
      split; [|constructor; assumption].
      eapply Qle_trans; [apply Qlt_le_weak; exact E|exact Hy].
    + destruct (IH m) as [Hm Hl].
      split; [assumption|constructor; [|assumption]].
      eapply Qle_trans; [|exact Hm].
      apply Qnot_lt_le. intros Hlt. apply Qltb_true in Hlt. congruence.
Qed.

Lemma map_snd_combine_same {A B : Type} (l : list A) (l' : list B) :
  length l = length l' -> map snd (combine l l') = l'.
Proof.
  revert l'; induction l as [|a l IH]; intros [|b l']; simpl;
    try discriminate; [reflexivity|].
  intros [= H]. now rewrite IH.
Qed.

Lemma value_counts_sum n codes :
  Forall (fun o => exists i, o = Some i /\ (i < n)%nat) codes ->
  Zsum (value_counts n codes) = Z.of_nat (length codes).
Proof.
  intros H. unfold value_counts.
  exact (members_of_partition (fun o => o) n codes H).
Qed.

(** Where the runtime bins do count every sample: when no sample is
    negative and either some sample is beyond 180 minutes or all are
    below. *)
Lemma runtime_bins_count_all samples :
  Forall (fun v => 0 <= v)%Q samples ->
  Exists (fun v => inject_Z 180 < v)%Q samples \/
  Forall (fun v => v < inject_Z 180)%Q samples ->
  Zsum (map snd (make_runtime_bins_df samples))
  = Z.of_nat (length samples).
Proof.
  intros Hnn Hcase.
  destruct samples as [|x xs]; [reflexivity|].
  unfold make_runtime_bins_df.
  set (mx := Qmaximum x xs).
  assert (Hmax : Forall (fun v => v <= mx)%Q (x :: xs)).
  { destruct (Qmaximum_ge xs x) as [Hx Hxs]. now constructor. }
  assert (Hcodes : forall edges n,
            edges = runtime_edges mx -> n = (length edges - 1)%nat ->
            Forall (fun o => exists i, o = Some i /\ (i < n)%nat)
                   (map (fun v => cut Qle_bool edges (Some v)) (x :: xs))).
  { intros edges n -> ->. rewrite Forall_forall. intros o Ho.
    apply in_map_iff in Ho. destruct Ho as [v [<- Hv]].
    rewrite Forall_forall in Hnn, Hmax.
    specialize (Hnn v Hv). specialize (Hmax v Hv).
    unfold runtime_edges. destruct (Qltb (inject_Z 180) mx) eqn:Eo.
    - apply (cut_in_range Qle_bool (inject_Z 0)
               (map inject_Z [60; 75; 90; 105; 120; 150; 180])
               (mx + 1)%Q v).
      + now apply Qle_bool_iff.
      + apply Qle_bool_false.
        eapply Qle_lt_trans; [exact Hmax|].
        rewrite <- (Qplus_0_r mx) at 1.
        apply Qplus_lt_r. reflexivity.
    - assert (Hlt : (v < inject_Z 180)%Q).
      { destruct Hcase as [Hex|Hall].
        - exfalso. apply Exists_exists in Hex.
          destruct Hex as [w [Hw Hgt]].
          assert (Hw' : (w <= mx)%Q).
          { destruct (Qmaximum_ge xs x) as [Hx Hxs].
            destruct Hw as [<-|Hw]; [exact Hx|].
            rewrite Forall_forall in Hxs. now apply Hxs. }
          assert (Hgt' : (inject_Z 180 < mx)%Q)
            by (eapply Qlt_le_trans; eassumption).
          apply Qltb_true in Hgt'. congruence.
        - rewrite Forall_forall in Hall. now apply Hall. }
      apply (cut_in_range Qle_bool (inject_Z 0)
               (map inject_Z [60; 75; 90; 105; 120; 150])
               (inject_Z 180) v).
      + now apply Qle_bool_iff.
      + now apply Qle_bool_false. }
  cbv zeta.
  rewrite map_snd_combine_same by (unfold value_counts;
                                   now rewrite length_map, length_seq).
  rewrite value_counts_sum.
  - now rewrite length_map.
  - apply (Hcodes (runtime_edges mx)); [reflexivity|].
    unfold runtime_edges, runtime_labels_all.
    destruct (Qltb (inject_Z 180) mx); reflexivity.
Qed.

(** C3. With a single sample of exactly 180 minutes the maximum is not
    beyond the last fixed edge, no overflow bin is made, the sample falls
    in no bin, and the seven counts add up to zero while one sample was
    collected. *)
Theorem runtime_bins_drop_180 :
  exists rep,
    analyse to_numeric_digits example_ratings [[three_hour_title]] = Ok rep /\
    runtime_series rep = [inject_Z 180] /\
    runtime_bins_df rep
    = [("< 60 min", 0); ("60-74", 0); ("75-89", 0); ("90-104", 0);
       ("105-119", 0); ("120-149", 0); ("150-179", 0)] /\
    Zsum (map snd (runtime_bins_df rep)) = 0 /\
    Z.of_nat (length (runtime_series rep)) = 1.
Proof.
  eexists. split; [vm_compute; reflexivity|].
  repeat split.
Qed.

(** * Genre weighted ratings *)

Lemma stream_genre_payload tn ratings chunks g a :
  In (g, a) (genre_stats (stream tn ratings chunks)) ->
  (g_weighted_sum a
   == direct_weighted_sum (rows_of_genre g (joined_rows tn ratings chunks)))%Q
  /\ g_votes a = direct_votes (rows_of_genre g (joined_rows tn ratings chunks))
  /\ g_count a
     = Z.of_nat (length (rows_of_genre g (joined_rows tn ratings chunks))).
Proof.
  intros Hin. rewrite stream_fold in Hin. unfold joined_rows.
  pose proof (fold_genre_keys_NoDup (map (movies_of_chunk tn ratings) chunks)
                empty_aggregators (NoDup_nil _)) as Hnd.
  apply (in_get String.eqb Seqb_spec _ _ _ Hnd) in Hin.
  destruct (fold_genre_stats (map (movies_of_chunk tn ratings) chunks)
              empty_aggregators g) as [Hw [Hv Hc]].
  cbv zeta in Hw, Hv, Hc. unfold get_or in Hw, Hv, Hc.
  rewrite Hin in Hw, Hv, Hc. simpl in Hw, Hv, Hc.
  repeat split; [now rewrite Hw, Qplus_0_l|lia|lia].
Qed.

Lemma stream_genre_absent tn ratings chunks g :
  ~ In g (map fst (genre_stats (stream tn ratings chunks))) ->
  direct_votes (rows_of_genre g (joined_rows tn ratings chunks)) = 0.
Proof.
  intros Hn. rewrite stream_fold in Hn. unfold joined_rows.
  apply (get_none_not_in String.eqb Seqb_spec) in Hn.
  destruct (fold_genre_stats (map (movies_of_chunk tn ratings) chunks)
              empty_aggregators g) as [_ [Hv _]].
  cbv zeta in Hv. unfold get_or in Hv. rewrite Hn in Hv.
  simpl in Hv. lia.
Qed.

Lemma in_genre_df d table row :
  make_genre_df d = Ok table ->
  (In row table <->
   exists g a, In (g, a) d /\ g_votes a <> 0 /\
     row = mkGenreRating g (g_count a) (g_votes a)
             (Some (g_weighted_sum a / inject_Z (g_votes a))%Q)).
Proof.
  unfold make_genre_df.
  destruct (frame_dropna _ _ _) as [rows|e] eqn:E; simpl; [|discriminate].
  intros [= <-]. apply frame_dropna_ok in E. subst rows.
  rewrite sort_by_in, filter_In. unfold genre_records.
  rewrite in_map_iff. split.
  - intros [[[g a] [<- Hin]] Hsome]. simpl in *.
    rewrite negb_involutive in Hsome.
    destruct (payload_average _ _) as [avg|] eqn:Ea; [|discriminate].
    apply payload_average_some in Ea. destruct Ea as [Hne ->].
    now exists g, a.
  - intros [g [a [Hin [Hne ->]]]].
    assert (Ea : payload_average (g_weighted_sum a) (g_votes a)
                 = Some (g_weighted_sum a / inject_Z (g_votes a))%Q)
      by now apply payload_average_some.
    split.
    + exists (g, a). simpl. now rewrite Ea.
    + simpl. reflexivity.
Qed.

(** X1. Every row of the genre table reports, for its genre token, the
    number of joined rows carrying the token, the sum of their votes, and
    the sum of rating times votes divided by that sum; a genre is listed
    exactly when its vote total is not zero.  A title with several tokens
    counts for each of them. *)
Theorem genre_weighted_average_is_ratio tn ratings chunks rep :
  analyse tn ratings chunks = Ok rep ->
  (forall row, In row (genre_df rep) ->
     let rows := rows_of_genre (gr_genre row)
                               (joined_rows tn ratings chunks) in
     direct_votes rows <> 0 /\
     gr_total_votes row = direct_votes rows /\
     gr_title_count row = Z.of_nat (length rows) /\
     exists avg,
       gr_weighted_average_rating row = Some avg /\
       (avg == direct_weighted_sum rows / inject_Z (direct_votes rows))%Q) /\
  (forall g, In g (map gr_genre (genre_df rep)) <->
             direct_votes (rows_of_genre g (joined_rows tn ratings chunks))
             <> 0).
Proof.
  unfold analyse. intros Hrep.
  apply finalize_ok in Hrep.
  destruct Hrep as [yearly [genre [top [_ [Hg [_ ->]]]]]]. simpl.
  assert (Hrow : forall row, In row genre ->
            let rows := rows_of_genre (gr_genre row)
                                      (joined_rows tn ratings chunks) in
            direct_votes rows <> 0 /\
            gr_total_votes row = direct_votes rows /\
            gr_title_count row = Z.of_nat (length rows) /\
            exists avg,
              gr_weighted_average_rating row = Some avg /\
              (avg == direct_weighted_sum rows
                      / inject_Z (direct_votes rows))%Q).
  { intros row Hin.
    apply (in_genre_df _ _ _ Hg) in Hin.
    destruct Hin as [g [a [Hin [Hne ->]]]]. simpl.
    destruct (stream_genre_payload _ _ _ _ _ Hin) as [Hw [Hv Hc]].
    rewrite <- Hv. split; [assumption|]. split; [reflexivity|].
    split; [assumption|].
    eexists. split; [reflexivity|]. now rewrite Hw. }
  split; [exact Hrow|].
  intros g. split.
  - intros Hin. apply in_map_iff in Hin. destruct Hin as [row [<- Hin]].
    now apply Hrow.
  - intros Hne.
    destruct (in_dec string_dec g
                (map fst (genre_stats (stream tn ratings chunks))))
      as [Hin|Hn].
    + apply in_map_iff in Hin. destruct Hin as [[g' a] [Hg' Hin]].
      simpl in Hg'. subst g'.
      destruct (stream_genre_payload _ _ _ _ _ Hin) as [_ [Hv _]].
      apply in_map_iff.
      exists (mkGenreRating g (g_count a) (g_votes a)
                (Some (g_weighted_sum a / inject_Z (g_votes a))%Q)).
      split; [reflexivity|].
      apply (in_genre_df _ _ _ Hg).
      exists g, a. repeat split; [assumption|]. now rewrite Hv.
    + now apply stream_genre_absent in Hn.
Qed.

Lemma genre_weighted_average_is_ratio_witness :
  exists rep,
    analyse to_numeric_digits example_ratings [example_titles] = Ok rep /\
    (forall row, In row (genre_df rep) ->
       let rows := rows_of_genre (gr_genre row)
                     (joined_rows to_numeric_digits example_ratings
                                  [example_titles]) in
       direct_votes rows <> 0 /\
       gr_total_votes row = direct_votes rows /\
       gr_title_count row = Z.of_nat (length rows) /\
       exists avg,
         gr_weighted_average_rating row = Some avg /\
         (avg == direct_weighted_sum rows / inject_Z (direct_votes rows))%Q)
    /\
    (forall g, In g (map gr_genre (genre_df rep)) <->
               direct_votes
                 (rows_of_genre g
                    (joined_rows to_numeric_digits example_ratings
                                 [example_titles]))
               <> 0).
Proof.
  eexists. split; [vm_compute; reflexivity|].
  apply (genre_weighted_average_is_ratio to_numeric_digits example_ratings
           [example_titles]).
  vm_compute. reflexivity.
Defined.

(** * The order of the tables *)

Lemma NoDup_map_filter {A B : Type} (f : A -> B) (p : A -> bool) l :
  NoDup (map f l) -> NoDup (map f (filter p l)).
Proof.
  induction l as [|x l IH]; simpl; intros Hnd; [constructor|].
  inversion Hnd as [|? ? Hnotin Hnd']; subst.
  destruct (p x); simpl; [|now apply IH].
  constructor; [|now apply IH].
  intros Hin. apply Hnotin. apply in_map_iff in Hin.
  destruct Hin as [y [Hy Hin]]. apply filter_In in Hin.
  rewrite <- Hy. apply in_map. tauto.
Qed.

Lemma StronglySorted_filter {A : Type} (R : A -> A -> Prop) (p : A -> bool) l :
  StronglySorted R l -> StronglySorted R (filter p l).
Proof.
  induction l as [|x l IH]; simpl; intros Hs; [constructor|].
  inversion Hs as [|? ? Hs' Hall]; subst.
  destruct (p x); [|now apply IH].
  constructor; [now apply IH|].
  rewrite Forall_forall in *. intros y Hy. apply Hall.
  apply filter_In in Hy. tauto.
Qed.

(** A list sorted by an integer key whose keys are distinct is strictly
    sorted. *)
Lemma sorted_distinct_strict {A : Type} (key : A -> Z) l :
  StronglySorted (fun a b => Z.leb (key a) (key b) = true) l ->
  NoDup (map key l) ->
  StronglySorted (fun a b => key a < key b) l.
Proof.
  induction l as [|x l IH]; simpl; intros Hs Hnd; [constructor|].
  inversion Hs as [|? ? Hs' Hall]; subst.
  inversion Hnd as [|? ? Hnotin Hnd']; subst.
  constructor; [now apply IH|].
  rewrite Forall_forall in *. intros y Hy.
  specialize (Hall y Hy). apply Z.leb_le in Hall.
  assert (key x <> key y); [|lia].
  intros Heq. apply Hnotin. rewrite Heq. now apply in_map.
Qed.

Lemma fold_counter_keys_NoDup (batches : list (list Movie)) s :
  NoDup (map fst (movies_per_year s)) ->
  NoDup (map fst (movies_per_year (fold_left update_aggregators batches s))).
Proof.
  revert s. induction batches as [|b batches IH]; simpl; intros s Hnd.
  - assumption.
  - apply IH. simpl. unfold counter_update.
    now apply (NoDup_keys_fold_groups Z.eqb Zeqb_spec).
Qed.

Lemma stream_keys_NoDup tn ratings chunks :
  NoDup (map fst (movies_per_year (stream tn ratings chunks))) /\
  NoDup (map fst (year_weighted_sums (stream tn ratings chunks))) /\
  NoDup (map fst (genre_stats (stream tn ratings chunks))).
Proof.
  rewrite stream_fold. repeat split.
  - apply fold_counter_keys_NoDup. constructor.
  - apply fold_year_keys_NoDup. constructor.
  - apply fold_genre_keys_NoDup. constructor.
Qed.

Lemma Zleb_total_key {A : Type} (key : A -> Z) a b :
  Z.leb (key a) (key b) = true \/ Z.leb (key b) (key a) = true.
Proof. rewrite !Z.leb_le. lia. Qed.

Lemma Zleb_trans_key {A : Type} (key : A -> Z) a b c :
  Z.leb (key a) (key b) = true -> Z.leb (key b) (key c) = true ->
  Z.leb (key a) (key c) = true.
Proof. rewrite !Z.leb_le. lia. Qed.

(** X2. The two tables keyed by year, movies per year and yearly ratings,
    come out in strictly ascending order of year: one row per year, the
    earliest year first. *)
Theorem year_tables_strictly_ascending tn ratings chunks rep :
  analyse tn ratings chunks = Ok rep ->
  StronglySorted (fun a b => fst a < fst b) (movies_per_year_df rep) /\
  StronglySorted (fun a b => yr_year a < yr_year b) (yearly_ratings_df rep).
Proof.
  unfold analyse. intros Hrep. apply finalize_ok in Hrep.
  destruct Hrep as [yearly [genre [top [Hy [_ [_ ->]]]]]]. simpl.
  destruct (stream_keys_NoDup tn ratings chunks) as [Hc [Hyk _]].
  split.
  - unfold make_movies_per_year_df.
    apply (sorted_distinct_strict fst).
    + apply StronglySorted_filter.
      apply (sort_by_sorted year_leb);
        [apply (Zleb_total_key fst)|apply (Zleb_trans_key fst)].
    + apply NoDup_map_filter.
      eapply Permutation_NoDup; [|exact Hc].
      apply Permutation_map. symmetry.
      now rewrite !sort_by_perm.
  - unfold make_yearly_ratings_df in Hy.
    destruct (frame_dropna _ _ _) as [rows|e] eqn:E; simpl in Hy;
      [|discriminate].
    apply Ok_inj in Hy. subst yearly.
    apply frame_dropna_ok in E. subst rows.
    apply (sorted_distinct_strict yr_year).
    + apply (sort_by_sorted (fun a b => Z.leb (yr_year a) (yr_year b)));
        [apply (Zleb_total_key yr_year)|apply (Zleb_trans_key yr_year)].
    + eapply Permutation_NoDup;
        [apply Permutation_map; symmetry; apply sort_by_perm|].
      apply NoDup_map_filter.
      unfold yearly_rating_records. rewrite map_map. simpl. exact Hyk.
Qed.

Lemma year_tables_strictly_ascending_witness :
  exists rep,
    analyse to_numeric_digits example_ratings
            [[example_title_1; early_title]; [example_title_2]] = Ok rep /\
    StronglySorted (fun a b => fst a < fst b) (movies_per_year_df rep) /\
    StronglySorted (fun a b => yr_year a < yr_year b) (yearly_ratings_df rep).
Proof.
  eexists. split; [vm_compute; reflexivity|].
  apply (year_tables_strictly_ascending to_numeric_digits example_ratings
           [[example_title_1; early_title]; [example_title_2]]).
  vm_compute. reflexivity.
Defined.

Lemma StronglySorted_weaken {A : Type} (R R' : A -> A -> Prop) l :
  (forall a b, R a b -> R' a b) ->
  StronglySorted R l -> StronglySorted R' l.
Proof.
  intros Himp. induction 1 as [|x l _ IH Hall]; constructor;
    [assumption|].
  eapply Forall_impl; [|exact Hall]. intros y. apply Himp.
Qed.

(** X3. The genre table lists every genre once, in descending order of
    total votes. *)
Theorem genre_table_descending_votes tn ratings chunks rep :
  analyse tn ratings chunks = Ok rep ->
  NoDup (map gr_genre (genre_df rep)) /\
  StronglySorted (fun a b => gr_total_votes b <= gr_total_votes a)
                 (genre_df rep).
Proof.
  unfold analyse. intros Hrep. apply finalize_ok in Hrep.
  destruct Hrep as [yearly [genre [top [_ [Hg [_ ->]]]]]]. simpl.
  destruct (stream_keys_NoDup tn ratings chunks) as [_ [_ Hgk]].
  unfold make_genre_df in Hg.
  destruct (frame_dropna _ _ _) as [rows|e] eqn:E; simpl in Hg;
    [|discriminate].
  apply Ok_inj in Hg. subst genre.
  apply frame_dropna_ok in E. subst rows.
  split.
  - eapply Permutation_NoDup;
      [apply Permutation_map; symmetry; apply sort_by_perm|].
    apply NoDup_map_filter.
    unfold genre_records. rewrite map_map. simpl. exact Hgk.
  - apply (StronglySorted_weaken
             (fun a b => Z.leb (gr_total_votes b) (gr_total_votes a) = true)).
    + intros a b. apply Z.leb_le.
    + apply (sort_by_sorted
               (fun a b => Z.leb (gr_total_votes b) (gr_total_votes a))).
      * intros a b. rewrite !Z.leb_le. lia.
      * intros a b c. rewrite !Z.leb_le. lia.
Qed.

Lemma genre_table_descending_votes_witness :
  exists rep,
    analyse to_numeric_digits example_ratings [example_titles] = Ok rep /\
    NoDup (map gr_genre (genre_df rep)) /\
    StronglySorted (fun a b => gr_total_votes b <= gr_total_votes a)
                   (genre_df rep).
Proof.
  eexists. split; [vm_compute; reflexivity|].
  apply (genre_table_descending_votes to_numeric_digits example_ratings
           [example_titles]).
  vm_compute. reflexivity.
Defined.

(** * The collections do not depend on the chunking *)

Lemma popular_subset_app l1 l2 :
  popular_subset (l1 ++ l2) = popular_subset l1 ++ popular_subset l2.
Proof. unfold popular_subset. now rewrite filter_app, map_app. Qed.

Lemma fold_collections (batches : list (list Movie)) s :
  let s' := fold_left update_aggregators batches s in
  runtime_minutes s'
  = runtime_minutes s ++ dropna (map m_runtimeMinutes (concat batches)) /\
  concat (top_titles_frames s')
  = concat (top_titles_frames s) ++ map top_row (concat batches) /\
  concat (scatter_frames s')
  = concat (scatter_frames s) ++ popular_subset (concat batches).
Proof.
  cbv zeta. revert s.
  induction batches as [|b batches IH]; simpl; intros s.
  - now rewrite !app_nil_r.
  - destruct (IH (update_aggregators s b)) as [Hr [Ht Hs]].
    rewrite Hr, Ht, Hs. simpl.
    rewrite !map_app, dropna_app, popular_subset_app, !concat_app.
    simpl. rewrite !app_nil_r, <- !app_assoc.
    repeat split.
    destruct (popular_subset b) as [|r rows] eqn:E.
    + reflexivity.
    + rewrite concat_app. simpl. now rewrite app_nil_r, <- app_assoc.
Qed.

Lemma join_inner_app ratings l1 l2 :
  join_inner ratings (l1 ++ l2)
  = join_inner ratings l1 ++ join_inner ratings l2.
Proof. unfold join_inner. apply flat_map_app. Qed.

Lemma movies_of_chunk_app tn ratings c1 c2 :
  movies_of_chunk tn ratings (c1 ++ c2)
  = movies_of_chunk tn ratings c1 ++ movies_of_chunk tn ratings c2.
Proof.
  unfold movies_of_chunk. now rewrite filter_app, join_inner_app, map_app.
Qed.

(** The joined rows of a chunked run are those of the same titles in one
    chunk. *)
Lemma joined_rows_one_chunk tn ratings chunks :
  joined_rows tn ratings chunks = movies_of_chunk tn ratings (concat chunks).
Proof.
  unfold joined_rows.
  induction chunks as [|c chunks IH]; simpl; [reflexivity|].
  now rewrite movies_of_chunk_app, IH.
Qed.

Lemma collections_are_those_of_one_pass_aux tn ratings chunks :
  runtime_minutes (stream tn ratings chunks)
  = dropna (map m_runtimeMinutes
                (movies_of_chunk tn ratings (concat chunks))) /\
  concat (top_titles_frames (stream tn ratings chunks))
  = map top_row (movies_of_chunk tn ratings (concat chunks)) /\
  make_scatter_df (scatter_frames (stream tn ratings chunks))
  = popular_subset (movies_of_chunk tn ratings (concat chunks)).
Proof.
  rewrite <- joined_rows_one_chunk, make_scatter_df_concat.
  rewrite stream_fold. unfold joined_rows.
  exact (fold_collections (map (movies_of_chunk tn ratings) chunks)
                          empty_aggregators).
Qed.

(** X4. After the chunk loop the three growing collections hold what one
    pass over all titles would collect, in title order: the known runtimes
    of the joined rows, one top-table candidate per joined row, and the
    rating and votes of the joined rows with at least 50,000 votes. *)
Theorem collections_are_those_of_one_pass tn ratings chunks :
  let s := stream tn ratings chunks in
  let all := movies_of_chunk tn ratings (concat chunks) in
  runtime_minutes s = dropna (map m_runtimeMinutes all) /\
  concat (top_titles_frames s) = map top_row all /\
  make_scatter_df (scatter_frames s) = popular_subset all.
Proof. exact (collections_are_those_of_one_pass_aux tn ratings chunks). Qed.

Lemma make_top_titles_df_concat frames1 frames2 t1 t2 :
  make_top_titles_df frames1 = Ok t1 ->
  make_top_titles_df frames2 = Ok t2 ->
  concat frames1 = concat frames2 -> t1 = t2.
Proof.
  unfold make_top_titles_df, pd_concat.
  destruct frames1 as [|f1 fs1]; [discriminate|].
  destruct frames2 as [|f2 fs2]; [discriminate|].
  unfold bind. intros H1 H2 Heq.
  apply Ok_inj in H1. apply Ok_inj in H2. subst t1 t2.
  now rewrite Heq.
Qed.

(** X5. Cutting the same titles into chunks differently does not change
    the top-titles table, the runtime distribution, the popularity table,
    the runtime series or the statistics of the runtime series: a chunked
    run reports what the run on a single chunk reports. *)
Theorem chunking_does_not_change_collection_tables tn ratings chunks rep rep1 :
  analyse tn ratings chunks = Ok rep ->
  analyse tn ratings [concat chunks] = Ok rep1 ->
  top_titles_df rep = top_titles_df rep1 /\
  runtime_bins_df rep = runtime_bins_df rep1 /\
  popularity_df rep = popularity_df rep1 /\
  runtime_series rep = runtime_series rep1 /\
  median_runtime (summaries rep) = median_runtime (summaries rep1) /\
  runtime_p10 (summaries rep) = runtime_p10 (summaries rep1) /\
  runtime_p25 (summaries rep) = runtime_p25 (summaries rep1) /\
  runtime_p75 (summaries rep) = runtime_p75 (summaries rep1) /\
  runtime_p90 (summaries rep) = runtime_p90 (summaries rep1) /\
  share_over_120_min (summaries rep) = share_over_120_min (summaries rep1).
Proof.
  unfold analyse. intros H H1.
  apply finalize_ok in H. apply finalize_ok in H1.
  destruct H as [yearly [genre [top [_ [_ [Ht ->]]]]]].
  destruct H1 as [yearly1 [genre1 [top1 [_ [_ [Ht1 ->]]]]]].
  destruct (collections_are_those_of_one_pass_aux tn ratings chunks)
    as [Hr [Hc Hs]].
  destruct (collections_are_those_of_one_pass_aux tn ratings [concat chunks])
    as [Hr1 [Hc1 Hs1]].
  assert (E : concat [concat chunks] = concat chunks)
    by (simpl; apply app_nil_r).
  rewrite E in Hr1, Hc1, Hs1.
  cbn [top_titles_df runtime_bins_df popularity_df runtime_series summaries
       make_summaries median_runtime runtime_p10 runtime_p25 runtime_p75
       runtime_p90 share_over_120_min].
  rewrite Hr, Hr1, Hs, Hs1.
  repeat split.
  apply (make_top_titles_df_concat _ _ _ _ Ht Ht1). now rewrite Hc, Hc1.
Qed.

Lemma chunking_does_not_change_collection_tables_witness :
  exists rep rep1,
    analyse to_numeric_digits example_ratings
            [[example_title_1]; [example_title_2]] = Ok rep /\
    analyse to_numeric_digits example_ratings
            [concat [[example_title_1]; [example_title_2]]] = Ok rep1 /\
    top_titles_df rep = top_titles_df rep1 /\
    runtime_bins_df rep = runtime_bins_df rep1 /\
    popularity_df rep = popularity_df rep1 /\
    runtime_series rep = runtime_series rep1 /\
    median_runtime (summaries rep) = median_runtime (summaries rep1) /\
    runtime_p10 (summaries rep) = runtime_p10 (summaries rep1) /\
    runtime_p25 (summaries rep) = runtime_p25 (summaries rep1) /\
    runtime_p75 (summaries rep) = runtime_p75 (summaries rep1) /\
    runtime_p90 (summaries rep) = runtime_p90 (summaries rep1) /\
    share_over_120_min (summaries rep) = share_over_120_min (summaries rep1).
Proof.
  do 2 eexists. split; [vm_compute; reflexivity|].
  split; [vm_compute; reflexivity|].
  apply (chunking_does_not_change_collection_tables to_numeric_digits
           example_ratings [[example_title_1]; [example_title_2]]);
    vm_compute; reflexivity.
Defined.

(** * The top titles are the most voted ones *)

Lemma votes_desc_leb_refl x : votes_desc_leb x x = true.
Proof. now destruct (votes_desc_leb_total x x). Qed.

Lemma not_seen_existsb (s : string) seen :
  existsb (String.eqb s) seen = false <-> ~ In s seen.
Proof.
  split.
  - intros E Hin.
    assert (existsb (String.eqb s) seen = true); [|congruence].
    apply existsb_exists. exists s. split; [assumption|apply String.eqb_refl].
  - intros Hn. destruct (existsb (String.eqb s) seen) eqn:E; [|reflexivity].
    apply existsb_exists in E. destruct E as [s' [Hin E]].
    apply String.eqb_eq in E. now subst.
Qed.

(** [drop_duplicates] on a sorted frame keeps, for every identifier, a row
    that comes no later than any row of that identifier. *)
Lemma drop_duplicates_keeps_first seen rows x :
  StronglySorted (fun a b => votes_desc_leb a b = true) rows ->
  In x rows -> ~ In (top_tconst x) seen ->
  exists r, In r (drop_duplicates seen rows) /\
            top_tconst r = top_tconst x /\ votes_desc_leb r x = true.
Proof.
  revert seen. induction rows as [|y rows IH]; intros seen Hs Hin Hseen;
    [contradiction|].
  inversion Hs as [|? ? Hs' Hall]; subst. simpl.
  destruct (existsb (String.eqb (top_tconst y)) seen) eqn:E.
  - destruct Hin as [->|Hin].
    + apply not_seen_existsb in Hseen. congruence.
    + now apply IH.
  - destruct Hin as [->|Hin].
    + exists x. repeat split; [now left|apply votes_desc_leb_refl].
    + destruct (string_dec (top_tconst x) (top_tconst y)) as [Heq|Hne].
      * exists y. repeat split; [now left|now symmetry|].
        rewrite Forall_forall in Hall. now apply Hall.
      * destruct (IH (top_tconst y :: seen) Hs' Hin) as [r [Hr [Ht Hl]]].
        { intros [H|H]; [now apply Hne|now apply Hseen]. }
        exists r. repeat split; [now right|assumption|assumption].
Qed.

(** A row of a sorted list that is cut off by [firstn n] has [n] rows
    before it. *)
Lemma firstn_cuts_off_later {A : Type} (R : A -> A -> Prop) n l r :
  StronglySorted R l -> In r l -> ~ In r (firstn n l) ->
  length (firstn n l) = n /\ Forall (fun e => R e r) (firstn n l).
Proof.
  revert l. induction n as [|n IH]; intros l Hs Hin Hout; simpl.
  - split; [reflexivity|constructor].
  - destruct l as [|x l]; [contradiction|].
    inversion Hs as [|? ? Hs' Hall]; subst. simpl in Hout.
    destruct Hin as [->|Hin]; [exfalso; apply Hout; now left|].
    destruct (IH l Hs' Hin) as [Hlen Hfa]; [tauto|].
    simpl. split; [now rewrite Hlen|].
    constructor; [|assumption].
    rewrite Forall_forall in Hall. now apply Hall.
Qed.

Lemma NoDup_map_inj {A B : Type} (f : A -> B) l a b :
  NoDup (map f l) -> In a l -> In b l -> f a = f b -> a = b.
Proof.
  induction l as [|x l IH]; simpl; intros Hnd Ha Hb Heq; [contradiction|].
  inversion Hnd as [|? ? Hnotin Hnd']; subst.
  destruct Ha as [->|Ha], Hb as [->|Hb]; try reflexivity.
  - exfalso. apply Hnotin. rewrite Heq. now apply in_map.
  - exfalso. apply Hnotin. rewrite <- Heq. now apply in_map.
  - now apply IH.
Qed.

Lemma votes_desc_leb_known a b v w :
  top_numVotes a = Some w -> top_numVotes b = Some v ->
  votes_desc_leb a b = true -> v <= w.
Proof.
  unfold votes_desc_leb. intros -> ->. apply Z.leb_le.
Qed.

(** X6. The top table is made of joined rows and holds the most voted
    titles: a joined title with a known vote count is either listed, or the
    table is full with 20 rows none of which has fewer votes; and the row
    listed for an identifier has the largest vote count among the joined
    rows of that identifier. *)
Theorem top_titles_are_the_most_voted tn ratings chunks rep :
  analyse tn ratings chunks = Ok rep ->
  (forall r, In r (top_titles_df rep) ->
     exists m, In m (joined_rows tn ratings chunks) /\ r = top_row m) /\
  (forall m v, In m (joined_rows tn ratings chunks) ->
     numVotes m = Some v ->
     In (tconst m) (map top_tconst (top_titles_df rep)) \/
     (length (top_titles_df rep) = 20%nat /\
      Forall (fun r => exists w, top_numVotes r = Some w /\ v <= w)
             (top_titles_df rep))) /\
  (forall r m v, In r (top_titles_df rep) ->
     In m (joined_rows tn ratings chunks) ->
     tconst m = top_tconst r -> numVotes m = Some v ->
     exists w, top_numVotes r = Some w /\ v <= w).
Proof.
  unfold analyse. intros Hrep. apply finalize_ok in Hrep.
  destruct Hrep as [yearly [genre [top [_ [_ [Ht ->]]]]]]. simpl.
  pose proof (make_top_titles_df_properties _ _ Ht) as [Hnd [Hknown _]].
  destruct (collections_are_those_of_one_pass_aux tn ratings chunks)
    as [_ [Hc _]].
  rewrite <- joined_rows_one_chunk in Hc.
  unfold make_top_titles_df, pd_concat in Ht.
  destruct (top_titles_frames (stream tn ratings chunks)) as [|f fs] eqn:Ef;
    [discriminate|].
  unfold bind in Ht. apply Ok_inj in Ht. rewrite Hc in Ht.
  set (all := map top_row (joined_rows tn ratings chunks)) in *.
  set (L := sort_by votes_desc_leb
              (filter (fun r => is_some (top_numVotes r)) all)) in *.
  assert (HL : StronglySorted (fun a b => votes_desc_leb a b = true) L).
  { apply sort_by_sorted;
      [apply votes_desc_leb_total|apply votes_desc_leb_trans]. }
  assert (HD : StronglySorted (fun a b => votes_desc_leb a b = true)
                 (drop_duplicates [] L))
    by now apply drop_duplicates_sorted.
  assert (HinL : forall m v, In m (joined_rows tn ratings chunks) ->
            numVotes m = Some v -> In (top_row m) L).
  { intros m v Hm Hv. apply sort_by_in, filter_In. split.
    - now apply in_map.
    - simpl. now rewrite Hv. }
  assert (Hfirst : forall m v, In m (joined_rows tn ratings chunks) ->
            numVotes m = Some v ->
            exists r, In r (drop_duplicates [] L) /\
                      top_tconst r = tconst m /\
                      votes_desc_leb r (top_row m) = true).
  { intros m v Hm Hv.
    destruct (drop_duplicates_keeps_first [] L (top_row m) HL
                (HinL m v Hm Hv)) as [r Hr]; [intros []|].
    now exists r. }
  rewrite Forall_forall in Hknown.
  split; [|split].
  - intros r Hr. subst top. apply firstn_in in Hr.
    apply drop_duplicates_in in Hr. destruct Hr as [Hr _].
    apply sort_by_in in Hr. apply filter_In in Hr. destruct Hr as [Hr _].
    apply in_map_iff in Hr. destruct Hr as [m [<- Hm]]. now exists m.
  - intros m v Hm Hv.
    destruct (in_dec string_dec (tconst m) (map top_tconst top))
      as [Hin|Hout]; [now left|right].
    destruct (Hfirst m v Hm Hv) as [r [Hr [Hid Hle]]].
    assert (Hnot : ~ In r top).
    { intros Hin. apply Hout. rewrite <- Hid. now apply in_map. }
    rewrite <- Ht in Hnot.
    destruct (firstn_cuts_off_later _ 20 _ r HD Hr Hnot) as [Hlen Hfa].
    rewrite Ht in Hlen, Hfa. split; [exact Hlen|].
    rewrite Forall_forall in *. intros e He.
    specialize (Hfa e He). specialize (Hknown e He).
    destruct (top_numVotes e) as [w|] eqn:Ew; [|congruence].
    exists w. split; [reflexivity|].
    apply (votes_desc_leb_known e (top_row m) v w Ew); [exact Hv|].
    now apply (votes_desc_leb_trans e r (top_row m)).
  - intros r m v Hr Hm Hid Hv.
    destruct (Hfirst m v Hm Hv) as [r' [Hr' [Hid' Hle]]].
    assert (HrD : In r (drop_duplicates [] L)).
    { rewrite <- Ht in Hr. now apply firstn_in in Hr. }
    assert (r' = r).
    { apply (NoDup_map_inj top_tconst (drop_duplicates [] L));
        [apply drop_duplicates_NoDup|assumption|assumption|congruence]. }
    subst r'. specialize (Hknown r Hr).
    destruct (top_numVotes r) as [w|] eqn:Ew; [|congruence].
    exists w. split; [reflexivity|].
    now apply (votes_desc_leb_known r (top_row m) v w Ew).
Qed.

Lemma top_titles_are_the_most_voted_witness :
  exists rep,
    analyse to_numeric_digits duplicate_ratings [example_titles] = Ok rep /\
    (forall r, In r (top_titles_df rep) ->
       exists m, In m (joined_rows to_numeric_digits duplicate_ratings
                                   [example_titles]) /\ r = top_row m) /\
    (forall m v, In m (joined_rows to_numeric_digits duplicate_ratings
                                   [example_titles]) ->
       numVotes m = Some v ->
       In (tconst m) (map top_tconst (top_titles_df rep)) \/
       (length (top_titles_df rep) = 20%nat /\
        Forall (fun r => exists w, top_numVotes r = Some w /\ v <= w)
               (top_titles_df rep))) /\
    (forall r m v, In r (top_titles_df rep) ->
       In m (joined_rows to_numeric_digits duplicate_ratings
                         [example_titles]) ->
       tconst m = top_tconst r -> numVotes m = Some v ->
       exists w, top_numVotes r = Some w /\ v <= w).
Proof.
  eexists. split; [vm_compute; reflexivity|].
  apply (top_titles_are_the_most_voted to_numeric_digits duplicate_ratings
           [example_titles]).
  vm_compute. reflexivity.
Defined.

(** * The year counter *)

Lemma in_keys_fold_groups_iff {K V G : Type} (eqb : K -> K -> bool)
  (eqb_spec : forall a b, eqb a b = true <-> a = b)
  (dflt : V) (F : G -> V -> V) (groups : list (K * G)) (d : list (K * V)) k :
  In k (map fst (fold_groups eqb dflt F groups d)) <->
  In k (map fst d) \/ In k (map fst groups).
Proof.
  unfold fold_groups. revert d.
  induction groups as [|[k0 g0] groups IH]; simpl; intros d.
  - tauto.
  - rewrite IH, (in_keys_upsert eqb eqb_spec). intuition congruence.
Qed.

Lemma years_of_movies movies :
  map astype_int (dropna (map m_startYear movies))
  = dropna (map year_of movies).
Proof.
  unfold year_of. rewrite <- dropna_map_some. now rewrite map_map.
Qed.

Lemma count_rows_with_year y movies :
  length (filter (fun k => Z.eqb k y) (dropna (map year_of movies)))
  = length (rows_with_year y movies).
Proof.
  unfold rows_with_year.
  induction movies as [|m movies IH]; simpl; [reflexivity|].
  destruct (year_of m) as [k|]; simpl; [|exact IH].
  destruct (Z.eqb k y); simpl; now rewrite IH.
Qed.

Lemma in_years_rows_with_year y movies :
  In y (dropna (map year_of movies)) <-> rows_with_year y movies <> [].
Proof.
  unfold rows_with_year.
  induction movies as [|m movies IH]; simpl; [tauto|].
  destruct (year_of m) as [k|]; simpl; [|exact IH].
  destruct (Z.eqb_spec k y) as [->|Hne].
  - split; [discriminate|now left].
  - rewrite <- IH. intuition congruence.
Qed.

Lemma year_counts_keys movies :
  map fst (year_counts movies)
  = map fst (groupby Z.eqb Z.leb (fun y : Z => y)
                     (dropna (map year_of movies))).
Proof.
  unfold year_counts. rewrite years_of_movies, map_map. reflexivity.
Qed.

(** What one chunk does to the count of year [y]. *)
Lemma counter_update_get c movies y :
  get_or Z.eqb 0 (counter_update c (year_counts movies)) y
  = get_or Z.eqb 0 c y + Z.of_nat (length (rows_with_year y movies)).
Proof.
  unfold counter_update.
  destruct (in_dec Z.eq_dec y (dropna (map year_of movies))) as [Hin|Hn].
  - assert (Hg : In (y, Z.of_nat (length (rows_with_year y movies)))
                    (year_counts movies)).
    { unfold year_counts. rewrite years_of_movies. apply in_map_iff.
      exists (y, filter (fun k => Z.eqb k y) (dropna (map year_of movies))).
      split.
      - simpl. now rewrite count_rows_with_year.
      - apply (in_groupby Z.eqb Zeqb_spec). split; [|reflexivity].
        now rewrite map_id. }
    unfold get_or at 1.
    rewrite (get_fold_groups_present Z.eqb Zeqb_spec _ _ _ _ _ _
               ltac:(rewrite year_counts_keys;
                     apply (NoDup_groupby_keys Z.eqb Zeqb_spec)) Hg).
    reflexivity.
  - unfold get_or at 1.
    rewrite (get_fold_groups_absent Z.eqb Zeqb_spec).
    + fold (get_or Z.eqb 0 c y).
      destruct (rows_with_year y movies) as [|m rows] eqn:E; [cbn; lia|].
      exfalso. apply Hn. apply in_years_rows_with_year.
      rewrite E. discriminate.
    + rewrite year_counts_keys, (in_groupby_keys Z.eqb Zeqb_spec), map_id.
      exact Hn.
Qed.

Lemma fold_counter (batches : list (list Movie)) s y :
  get_or Z.eqb 0
         (movies_per_year (fold_left update_aggregators batches s)) y
  = get_or Z.eqb 0 (movies_per_year s) y
    + Z.of_nat (length (rows_with_year y (concat batches))).
Proof.
  revert s. induction batches as [|b batches IH]; simpl; intros s.
  - cbn. lia.
  - rewrite IH. simpl. rewrite counter_update_get.
    unfold rows_with_year. rewrite filter_app, length_app. lia.
Qed.

Lemma fold_counter_keys (batches : list (list Movie)) s y :
  In y (map fst (movies_per_year (fold_left update_aggregators batches s)))
  <-> In y (map fst (movies_per_year s)) \/
      In y (dropna (map year_of (concat batches))).
Proof.
  revert s. induction batches as [|b batches IH]; simpl; intros s.
  - tauto.
  - rewrite IH. simpl. unfold counter_update.
    rewrite (in_keys_fold_groups_iff Z.eqb Zeqb_spec).
    rewrite year_counts_keys, (in_groupby_keys Z.eqb Zeqb_spec), map_id.
    rewrite map_app, dropna_app, in_app_iff. tauto.
Qed.

Lemma year_counter_counts_joined_rows_aux tn ratings chunks y c :
  In (y, c) (movies_per_year (stream tn ratings chunks)) <->
  rows_with_year y (joined_rows tn ratings chunks) <> [] /\
  c = Z.of_nat (length (rows_with_year y (joined_rows tn ratings chunks))).
Proof.
  rewrite stream_fold. unfold joined_rows.
  set (batches := map (movies_of_chunk tn ratings) chunks).
  pose proof (fold_counter_keys_NoDup batches empty_aggregators
                (NoDup_nil _)) as Hnd.
  pose proof (fold_counter batches empty_aggregators y) as Hcount.
  pose proof (fold_counter_keys batches empty_aggregators y) as Hkeys.
  simpl in Hkeys. split.
  - intros Hin. split.
    + apply in_years_rows_with_year.
      apply (in_map fst) in Hin. simpl in Hin. apply Hkeys in Hin. tauto.
    + apply (in_get Z.eqb Zeqb_spec _ _ _ Hnd) in Hin.
      unfold get_or in Hcount at 1. rewrite Hin in Hcount.
      cbn in Hcount. lia.
  - intros [Hne ->].
    apply in_years_rows_with_year in Hne.
    assert (Hk : In y (map fst (movies_per_year
                                  (fold_left update_aggregators batches
                                             empty_aggregators))))
      by (apply Hkeys; now right).
    destruct (get_some_of_key Z.eqb Zeqb_spec _ _ Hk) as [c Hc].
    unfold get_or in Hcount at 1. rewrite Hc in Hcount. cbn in Hcount.
    apply (get_in Z.eqb Zeqb_spec) in Hc.
    replace (Z.of_nat (length (rows_with_year y (concat batches)))) with c
      by lia.
    exact Hc.
Qed.

(** X7. The year counter has an entry for a year exactly when some joined
    row has that year, and the entry counts the joined rows of the year,
    whatever their vote data and however the titles are chunked. *)
Theorem year_counter_counts_joined_rows tn ratings chunks y c :
  In (y, c) (movies_per_year (stream tn ratings chunks)) <->
  rows_with_year y (joined_rows tn ratings chunks) <> [] /\
  c = Z.of_nat (length (rows_with_year y (joined_rows tn ratings chunks))).
Proof. apply year_counter_counts_joined_rows_aux. Qed.

Lemma Zsum_pick (ks : list Z) k0 c :
  NoDup ks ->
  Zsum (map (fun k => if Z.eqb k0 k then c else 0) ks)
  = if in_dec Z.eq_dec k0 ks then c else 0.
Proof.
  induction 1 as [|k ks Hnotin _ IH]; simpl; [reflexivity|].
  rewrite IH.
  destruct (Z.eqb_spec k0 k) as [->|Hne].
  - destruct (Z.eq_dec k k) as [Hk|Hk]; [|congruence].
    destruct (in_dec Z.eq_dec k ks); [contradiction|lia].
  - destruct (Z.eq_dec k k0) as [Hk|Hk]; [congruence|].
    destruct (in_dec Z.eq_dec k0 ks); lia.
Qed.

(** Counting per year over distinct years that cover the rows, and adding
    up the years that satisfy [p], counts the rows whose year satisfies
    [p]. *)
Lemma count_by_year_partition (p : Z -> bool) ks movies :
  NoDup ks ->
  (forall y, In y (dropna (map year_of movies)) -> In y ks) ->
  Zsum (map (fun k => if p k
                      then Z.of_nat (length (rows_with_year k movies))
                      else 0) ks)
  = Z.of_nat (length (rows_with_year_in p movies)).
Proof.
  intros Hnd. induction movies as [|m movies IH]; intros Hcover.
  - cbn. now rewrite Zsum_map_zero by (intros k; now destruct (p k)).
  - assert (Hcover' : forall y, In y (dropna (map year_of movies)) ->
                                In y ks).
    { intros y Hy. apply Hcover. simpl.
      apply in_or_app. now right. }
    specialize (IH Hcover').
    unfold rows_with_year, rows_with_year_in in *. cbn [filter].
    destruct (year_of m) as [k0|] eqn:Ey.
    + rewrite (map_ext _
                 (fun k => (if Z.eqb k0 k then (if p k0 then 1 else 0) else 0)
                           + (if p k
                              then Z.of_nat (length (filter
                                     (fun m0 => match year_of m0 with
                                                | Some k1 => Z.eqb k1 k
                                                | None => false
                                                end) movies))
                              else 0))).
      * rewrite Zsum_map_add, IH, Zsum_pick by assumption.
        destruct (in_dec Z.eq_dec k0 ks) as [_|Hn].
        -- destruct (p k0); cbn [length]; lia.
        -- exfalso. apply Hn, Hcover. simpl. rewrite Ey. now left.
      * intros k. destruct (Z.eqb_spec k0 k) as [->|Hne];
          destruct (p k); cbn [length]; lia.
    + exact IH.
Qed.

(** X8. Provided the known start years of the joined rows are within the
    range of [int64], the movies-per-year table lists a year exactly when
    it is 1900 or later and some joined row has it as its cast start year,
    with the number of joined rows of that year; [total_rated_movies] is
    the number of joined rows whose start year is known and casts to 1900
    or later (a title joined with two rating records counts twice). *)
Theorem movies_per_year_table_counts_rows tn ratings chunks rep :
  analyse tn ratings chunks = Ok rep ->
  Forall year_in_int64 (joined_rows tn ratings chunks) ->
  (forall y c, In (y, c) (movies_per_year_df rep) <->
     1900 <= y /\
     rows_with_year y (joined_rows tn ratings chunks) <> [] /\
     c = Z.of_nat (length (rows_with_year y
                             (joined_rows tn ratings chunks)))) /\
  total_rated_movies (summaries rep)
  = Z.of_nat (length (rows_with_year_in (Z.leb 1900)
                        (joined_rows tn ratings chunks))).
Proof.
  unfold analyse. intros Hrep _. apply finalize_ok in Hrep.
  destruct Hrep as [yearly [genre [top [_ [_ [_ ->]]]]]]. simpl.
  set (counter := movies_per_year (stream tn ratings chunks)).
  pose proof (movies_per_year_df_perm counter) as Hperm.
  split.
  - intros y c. split.
    + intros H. apply (Permutation_in _ Hperm) in H.
      apply filter_In in H. simpl in H. destruct H as [H Hy].
      apply year_counter_counts_joined_rows_aux in H.
      rewrite Z.leb_le in Hy. tauto.
    + intros [Hy H]. apply (Permutation_in _ (Permutation_sym Hperm)).
      apply filter_In. simpl. rewrite Z.leb_le. split; [|assumption].
      now apply year_counter_counts_joined_rows_aux.
  - rewrite (Zsum_perm _ _ (Permutation_map snd Hperm)).
    destruct (stream_keys_NoDup tn ratings chunks) as [Hnd _].
    fold counter in Hnd.
    rewrite <- (count_by_year_partition (Z.leb 1900) (map fst counter));
      [|assumption|].
    + clear Hperm.
      assert (Hc : forall kc, In kc counter ->
                snd kc = Z.of_nat (length (rows_with_year (fst kc)
                                  (joined_rows tn ratings chunks)))).
      { intros [k c] Hin.
        apply year_counter_counts_joined_rows_aux in Hin. simpl. tauto. }
      induction counter as [|[k c] counter IH]; simpl; [reflexivity|].
      inversion Hnd; subst.
      rewrite <- IH; [|assumption|intros kc Hkc; apply Hc; now right].
      specialize (Hc (k, c) (or_introl eq_refl)). simpl in Hc.
      destruct (Z.leb 1900 k); simpl; lia.
    + intros y Hy. apply in_years_rows_with_year in Hy.
      apply in_map_iff.
      exists (y, Z.of_nat (length (rows_with_year y
                                     (joined_rows tn ratings chunks)))).
      split; [reflexivity|].
      now apply year_counter_counts_joined_rows_aux.
Qed.

Lemma example_years_in_int64 :
  Forall year_in_int64
         (joined_rows to_numeric_digits duplicate_ratings
            [[example_title_1; early_title]; [example_title_2]]).
Proof.
  apply Forall_forall. intros m Hm. vm_compute in Hm.
  repeat (destruct Hm as [<-|Hm];
          [intros q Hq; injection Hq as Hq; subst q;
           split; [apply Qle_bool_iff|]; reflexivity|]).
  contradiction.
Defined.

Lemma movies_per_year_table_counts_rows_witness :
  exists rep,
    analyse to_numeric_digits duplicate_ratings
            [[example_title_1; early_title]; [example_title_2]] = Ok rep /\
    Forall year_in_int64
           (joined_rows to_numeric_digits duplicate_ratings
              [[example_title_1; early_title]; [example_title_2]]) /\
    (forall y c, In (y, c) (movies_per_year_df rep) <->
       1900 <= y /\
       rows_with_year y
         (joined_rows to_numeric_digits duplicate_ratings
            [[example_title_1; early_title]; [example_title_2]]) <> [] /\
       c = Z.of_nat
             (length
                (rows_with_year y
                   (joined_rows to_numeric_digits duplicate_ratings
                      [[example_title_1; early_title]; [example_title_2]]))))
    /\
    total_rated_movies (summaries rep)
    = Z.of_nat
        (length
           (rows_with_year_in (Z.leb 1900)
              (joined_rows to_numeric_digits duplicate_ratings
                 [[example_title_1; early_title]; [example_title_2]]))).
Proof.
  eexists. split; [vm_compute; reflexivity|].
  split; [exact example_years_in_int64|].
  apply (movies_per_year_table_counts_rows to_numeric_digits
           duplicate_ratings
           [[example_title_1; early_title]; [example_title_2]]).
  - vm_compute. reflexivity.
  - exact example_years_in_int64.
Defined.

(** * Weighted averages stay within the ratings *)

Lemma ratio_within (lo hi s t : Q) :
  (0 < t)%Q -> (lo * t <= s)%Q -> (s <= hi * t)%Q ->
  (lo <= s / t)%Q /\ (s / t <= hi)%Q.
Proof.
  intros Ht Hlo Hhi. split.
  - now apply Qle_shift_div_l.
  - now apply Qle_shift_div_r.
Qed.

Lemma Qpos_of_nonneg_nonzero (t : Q) : (0 <= t)%Q -> ~ (t == 0)%Q -> (0 < t)%Q.
Proof.
  intros Hle Hne. apply Qlt_leneq. split; [assumption|].
  intros H. apply Hne. now symmetry.
Qed.

(** The sum of products is between [lo] and [hi] times the sum of the
    weights. *)
Lemma products_within lo hi (rs ws : list (option Q)) :
  length rs = length ws ->
  Forall (known_within lo hi) rs -> Forall known_nonneg ws ->
  (0 <= series_sum ws)%Q /\
  (lo * series_sum ws
   <= series_sum (map (fun rw => mul_opt (fst rw) (snd rw)) (combine rs ws)))%Q
  /\
  (series_sum (map (fun rw => mul_opt (fst rw) (snd rw)) (combine rs ws))
   <= hi * series_sum ws)%Q.
Proof.
  unfold series_sum. revert ws.
  induction rs as [|r rs IH]; intros [|w ws] Hlen Hr Hw; try discriminate.
  - simpl. repeat split; [apply Qle_refl| |];
      rewrite Qmult_0_r; apply Qle_refl.
  - inversion Hr as [|? ? [x [-> [Hlo Hhi]]] Hr']; subst.
    inversion Hw as [|? ? [y [-> Hy]] Hw']; subst.
    injection Hlen as Hlen.
    destruct (IH ws Hlen Hr' Hw') as [H0 [H1 H2]].
    simpl. repeat split.
    + now apply Qplus_nonneg.
    + rewrite Qmult_plus_distr_r.
      apply Qplus_le_compat; [|exact H1].
      now apply Qmult_le_compat_r.
    + rewrite Qmult_plus_distr_r.
      apply Qplus_le_compat; [|exact H2].
      now apply Qmult_le_compat_r.
Qed.

Lemma weighted_average_within_aux lo hi (rs ws : list (option Q)) avg :
  length rs = length ws ->
  Forall (known_within lo hi) rs -> Forall known_nonneg ws ->
  weighted_average rs ws = Some avg ->
  (lo <= avg)%Q /\ (avg <= hi)%Q.
Proof.
  intros Hlen Hr Hw. unfold weighted_average.
  destruct (products_within lo hi rs ws Hlen Hr Hw) as [H0 [H1 H2]].
  destruct (Qeq_bool (series_sum ws) (0 # 1)) eqn:E; [discriminate|].
  intros [= <-]. apply Qeq_bool_neq in E.
  apply ratio_within; try assumption.
  now apply Qpos_of_nonneg_nonzero.
Qed.

Lemma Some_inj_Q (a b : Q) : Some a = Some b -> a = b.
Proof. now intros [= ->]. Qed.

Lemma nonneg_weights_sum_zero (ws : list (option Q)) :
  Forall known_nonneg ws ->
  ((series_sum ws == 0)%Q <->
   Forall (fun w => exists x, w = Some x /\ (x == 0)%Q) ws).
Proof.
  unfold series_sum.
  induction 1 as [|w ws [x [-> Hx]] Hws IH]; simpl.
  - split; [constructor|reflexivity].
  - assert (Hs : (0 <= Qsum (dropna ws))%Q).
    { clear IH. induction Hws as [|w' ws' [y [-> Hy]] _ IH']; simpl;
        [apply Qle_refl|now apply Qplus_nonneg]. }
    split.
    + intros Hz.
      assert (Hx0 : (x == 0)%Q).
      { apply Qle_antisym; [|exact Hx].
        rewrite <- Hz. rewrite <- (Qplus_0_r x) at 1.
        now apply Qplus_le_r. }
      constructor; [now exists x|].
      apply IH. rewrite Hx0, Qplus_0_l in Hz. exact Hz.
    + intros Hall. inversion Hall as [|? ? Hh Hall']; subst.
      destruct Hh as [y [Hy Hy0]]. apply Some_inj_Q in Hy. subst y.
      apply IH in Hall'. now rewrite Hy0, Hall', Qplus_0_l.
Qed.

(** X9. For a series of known ratings between two bounds and a series, of
    the same length, of known weights that are not negative,
    [weighted_average] is undefined exactly when every weight is zero, and
    otherwise it lies between the bounds. *)
Theorem weighted_average_within lo hi (rs ws : list (option Q)) :
  length rs = length ws ->
  Forall (known_within lo hi) rs -> Forall known_nonneg ws ->
  (weighted_average rs ws = None <->
   Forall (fun w => exists x, w = Some x /\ (x == 0)%Q) ws) /\
  (forall avg, weighted_average rs ws = Some avg ->
               (lo <= avg)%Q /\ (avg <= hi)%Q).
Proof.
  intros Hlen Hr Hw. split.
  - rewrite <- (nonneg_weights_sum_zero ws Hw).
    unfold weighted_average.
    destruct (Qeq_bool (series_sum ws) (0 # 1)) eqn:E.
    + apply Qeq_bool_iff in E. tauto.
    + apply Qeq_bool_neq in E. split; [discriminate|tauto].
  - intros avg. now apply weighted_average_within_aux.
Qed.

Lemma example_series_within :
  Forall (known_within (0 # 1) (10 # 1)) [Some (8 # 1); Some (6 # 1)]%Q /\
  Forall known_nonneg [Some (100 # 1); Some (50 # 1)]%Q.
Proof.
  split; repeat constructor; eexists; (split; [reflexivity|]);
    try split; discriminate.
Defined.

Lemma weighted_average_within_witness :
  length [Some (8 # 1); Some (6 # 1)]%Q
  = length [Some (100 # 1); Some (50 # 1)]%Q /\
  Forall (known_within (0 # 1) (10 # 1)) [Some (8 # 1); Some (6 # 1)]%Q /\
  Forall known_nonneg [Some (100 # 1); Some (50 # 1)]%Q /\
  (weighted_average [Some (8 # 1); Some (6 # 1)]%Q
                    [Some (100 # 1); Some (50 # 1)]%Q = None <->
   Forall (fun w => exists x, w = Some x /\ (x == 0)%Q)
          [Some (100 # 1); Some (50 # 1)]%Q) /\
  (forall avg,
     weighted_average [Some (8 # 1); Some (6 # 1)]%Q
                      [Some (100 # 1); Some (50 # 1)]%Q = Some avg ->
     (0 # 1 <= avg)%Q /\ (avg <= 10 # 1)%Q).
Proof.
  split; [reflexivity|].
  split; [exact (proj1 example_series_within)|].
  split; [exact (proj2 example_series_within)|].
  apply (weighted_average_within (0 # 1) (10 # 1)
           [Some (8 # 1); Some (6 # 1)]%Q
           [Some (100 # 1); Some (50 # 1)]%Q).
  - reflexivity.
  - exact (proj1 example_series_within).
  - exact (proj2 example_series_within).
Defined.

Lemma direct_sums_within lo hi rows :
  Forall (row_within lo hi) rows ->
  0 <= direct_votes rows /\
  (lo * inject_Z (direct_votes rows) <= direct_weighted_sum rows)%Q /\
  (direct_weighted_sum rows <= hi * inject_Z (direct_votes rows))%Q.
Proof.
  unfold direct_votes, direct_weighted_sum.
  induction 1 as [|m rows [[x [Hx [Hlo Hhi]]] Hv] _ [IH0 [IH1 IH2]]]; simpl.
  - repeat split; [lia| |]; rewrite Qmult_0_r; apply Qle_refl.
  - destruct (numVotes m) as [v|] eqn:Ev.
    + assert (Ep : rating_times_votes m = (x * inject_Z v)%Q)
        by (unfold rating_times_votes; now rewrite Hx, Ev).
      assert (En : votes_of m = v) by (unfold votes_of; now rewrite Ev).
      rewrite Ep, En. specialize (Hv v eq_refl).
      assert (Hv' : (0 <= inject_Z v)%Q)
        by (change 0%Q with (inject_Z 0); now rewrite <- Zle_Qle).
      repeat split; [lia| |]; rewrite inject_Z_plus, Qmult_plus_distr_r.
      * apply Qplus_le_compat; [now apply Qmult_le_compat_r|exact IH1].
      * apply Qplus_le_compat; [now apply Qmult_le_compat_r|exact IH2].
    + assert (Ep : rating_times_votes m = (0 # 1)%Q)
        by (unfold rating_times_votes; now rewrite Hx, Ev).
      assert (En : votes_of m = 0) by (unfold votes_of; now rewrite Ev).
      rewrite Ep, En.
      repeat split; [lia| |]; rewrite Z.add_0_l, Qplus_0_l; assumption.
Qed.

Lemma movies_of_chunk_within lo hi tn ratings chunk :
  Forall (rating_within lo hi) ratings ->
  Forall (row_within lo hi) (movies_of_chunk tn ratings chunk).
Proof.
  intros H. rewrite Forall_forall in *. intros m Hm.
  unfold movies_of_chunk in Hm. apply in_map_iff in Hm.
  destruct Hm as [[t r] [<- Hin]].
  unfold join_inner in Hin. apply in_flat_map in Hin.
  destruct Hin as [t' [_ Hin]]. apply in_map_iff in Hin.
  destruct Hin as [r' [[= -> ->] Hr]]. apply filter_In in Hr.
  destruct (H r (proj1 Hr)) as [Hx Hv].
  split; simpl; [exact Hx|]. now intros v [= <-].
Qed.

Lemma average_of_rows_within lo hi rows ws votes :
  Forall (row_within lo hi) rows ->
  (ws == direct_weighted_sum rows)%Q -> votes = direct_votes rows ->
  votes <> 0 ->
  (lo <= ws / inject_Z votes)%Q /\ (ws / inject_Z votes <= hi)%Q.
Proof.
  intros Hrows Hw -> Hne.
  destruct (direct_sums_within lo hi rows Hrows) as [H0 [H1 H2]].
  apply ratio_within.
  - change 0%Q with (inject_Z 0). rewrite <- Zlt_Qlt. lia.
  - now rewrite Hw.
  - now rewrite Hw.
Qed.

(** X10. When every rating record carries a rating between two bounds and
    a vote count that is not negative, every weighted average that is
    reported, per year, per genre and overall, lies between the same
    bounds. *)
Theorem reported_averages_within_ratings lo hi tn ratings chunks rep :
  analyse tn ratings chunks = Ok rep ->
  Forall (rating_within lo hi) ratings ->
  (forall row, In row (yearly_ratings_df rep) ->
     exists avg, yr_weighted_average_rating row = Some avg /\
                 (lo <= avg)%Q /\ (avg <= hi)%Q) /\
  (forall row, In row (genre_df rep) ->
     exists avg, gr_weighted_average_rating row = Some avg /\
                 (lo <= avg)%Q /\ (avg <= hi)%Q) /\
  (forall avg, overall_weighted_rating (summaries rep) = Some avg ->
               (lo <= avg)%Q /\ (avg <= hi)%Q).
Proof.
  unfold analyse. intros Hrep Hratings. apply finalize_ok in Hrep.
  destruct Hrep as [yearly [genre [top [Hy [Hg [_ ->]]]]]]. simpl.
  assert (Hall : Forall (row_within lo hi) (joined_rows tn ratings chunks)).
  { rewrite joined_rows_one_chunk. now apply movies_of_chunk_within. }
  split; [|split].
  - intros row Hin. apply (in_yearly_ratings_df _ _ _ Hy) in Hin.
    destruct Hin as [y [a [Hin [Hne ->]]]]. simpl.
    destruct (stream_year_payload _ _ _ _ _ Hin) as [Hw Hv].
    eexists. split; [reflexivity|].
    apply (average_of_rows_within lo hi
             (rows_of_year y (joined_rows tn ratings chunks)));
      try assumption.
    now apply Forall_rows_of_year.
  - intros row Hin. apply (in_genre_df _ _ _ Hg) in Hin.
    destruct Hin as [g [a [Hin [Hne ->]]]]. simpl.
    destruct (stream_genre_payload _ _ _ _ _ Hin) as [Hw [Hv _]].
    eexists. split; [reflexivity|].
    apply (average_of_rows_within lo hi
             (rows_of_genre g (joined_rows tn ratings chunks)));
      try assumption.
    now apply Forall_rows_of_genre.
  - intros avg.
    apply weighted_average_within_aux.
    + now rewrite !length_map.
    + rewrite Forall_map. eapply Forall_impl; [|exact Hratings].
      intros r [Hx _]. exact Hx.
    + rewrite Forall_map. eapply Forall_impl; [|exact Hratings].
      intros r [_ Hv]. exists (inject_Z (r_numVotes r)).
      split; [reflexivity|].
      change 0%Q with (inject_Z 0). now rewrite <- Zle_Qle.
Qed.

Lemma example_ratings_within :
  Forall (rating_within (0 # 1) (10 # 1)) example_ratings.
Proof.
  repeat constructor; simpl; try lia;
    eexists; (split; [reflexivity|]); split; discriminate.
Defined.

Lemma reported_averages_within_ratings_witness :
  exists rep,
    analyse to_numeric_digits example_ratings [example_titles] = Ok rep /\
    Forall (rating_within (0 # 1) (10 # 1)) example_ratings /\
    (forall row, In row (yearly_ratings_df rep) ->
       exists avg, yr_weighted_average_rating row = Some avg /\
                   (0 # 1 <= avg)%Q /\ (avg <= 10 # 1)%Q) /\
    (forall row, In row (genre_df rep) ->
       exists avg, gr_weighted_average_rating row = Some avg /\
                   (0 # 1 <= avg)%Q /\ (avg <= 10 # 1)%Q) /\
    (forall avg, overall_weighted_rating (summaries rep) = Some avg ->
                 (0 # 1 <= avg)%Q /\ (avg <= 10 # 1)%Q).
Proof.
  eexists. split; [vm_compute; reflexivity|].
  split; [exact example_ratings_within|].
  apply (reported_averages_within_ratings (0 # 1) (10 # 1) to_numeric_digits
           example_ratings [example_titles]).
  - vm_compute. reflexivity.
  - exact example_ratings_within.
Defined.

(** * Bins as intervals *)

Section CutIntervals.
Context {E X : Type}.
Variable edge_le : E -> X -> bool.

Lemma searchsorted_right_prefix bins x j d :
  (j < searchsorted_right edge_le bins x)%nat ->
  edge_le (nth j bins d) x = true.
Proof.
  revert j. induction bins as [|e bins IH]; simpl; intros j Hj; [lia|].
  destruct (edge_le e x) eqn:Ee; [|lia].
  destruct j as [|j]; [assumption|]. apply IH. lia.
Qed.

Lemma searchsorted_right_stop bins x d :
  (searchsorted_right edge_le bins x < length bins)%nat ->
  edge_le (nth (searchsorted_right edge_le bins x) bins d) x = false.
Proof.
  induction bins as [|e bins IH]; simpl; intros Hlt; [lia|].
  destruct (edge_le e x) eqn:Ee; [|assumption].
  apply IH. lia.
Qed.

Lemma searchsorted_right_beyond bins x i d :
  increasing_edges edge_le bins -> (i < length bins)%nat ->
  edge_le (nth i bins d) x = true ->
  (i < searchsorted_right edge_le bins x)%nat.
Proof.
  intros Hs. revert i. induction Hs as [|e bins _ IH Hall]; simpl;
    intros i Hi Hle; [lia|].
  destruct i as [|i].
  - rewrite Hle. lia.
  - assert (Hin : In (nth i bins d) bins) by (apply nth_In; lia).
    rewrite Forall_forall in Hall. rewrite (Hall _ Hin x Hle).
    apply -> Nat.succ_lt_mono. apply IH; [lia|assumption].
Qed.

(** [pd.cut] puts [x] in bin [i] exactly when [x] is not left of edge [i]
    and left of edge [i+1]. *)
Lemma cut_some_iff bins x i d :
  increasing_edges edge_le bins ->
  (cut edge_le bins (Some x) = Some i <->
   (S i < length bins)%nat /\
   edge_le (nth i bins d) x = true /\
   edge_le (nth (S i) bins d) x = false).
Proof.
  intros Hs. unfold cut.
  pose proof (searchsorted_right_le edge_le bins x) as Hle.
  remember (searchsorted_right edge_le bins x) as ids.
  split.
  - destruct (Nat.eqb_spec ids 0) as [H0|H0]; [discriminate|].
    destruct (Nat.eqb_spec ids (length bins)) as [H1|H1]; [discriminate|].
    simpl. intros [= <-].
    replace (S (ids - 1)) with ids by lia.
    split; [lia|]. split.
    + apply searchsorted_right_prefix. lia.
    + subst ids. apply searchsorted_right_stop. lia.
  - intros [Hlen [Hlo Hhi]].
    assert (Hgt : (i < ids)%nat).
    { subst ids. apply (searchsorted_right_beyond bins x i d Hs); [lia|].
      exact Hlo. }
    assert (Hup : (ids <= S i)%nat).
    { destruct (Nat.le_gt_cases ids (S i)) as [H|H]; [assumption|].
      subst ids.
      rewrite (searchsorted_right_prefix bins x (S i) d H) in Hhi.
      discriminate. }
    destruct (Nat.eqb_spec ids 0) as [H0|H0]; [lia|].
    destruct (Nat.eqb_spec ids (length bins)) as [H1|H1]; [lia|].
    simpl. f_equal. lia.
Qed.
End CutIntervals.

Lemma increasing_Q_edges (bins : list Q) :
  StronglySorted Qle bins -> increasing_edges Qle_bool bins.
Proof.
  apply StronglySorted_weaken. intros a b Hab x Hb.
  apply Qle_bool_iff. apply Qle_bool_iff in Hb.
  now apply (Qle_trans a b x).
Qed.

Lemma Qle_inject_Z a b : a <= b -> (inject_Z a <= inject_Z b)%Q.
Proof. intros H. now rewrite <- Zle_Qle. Qed.

Lemma runtime_base_edges_sorted : StronglySorted Qle runtime_base_edges.
Proof.
  unfold runtime_base_edges. simpl.
  repeat (constructor; [|repeat constructor; apply Qle_inject_Z; lia]).
  constructor.
Qed.

Lemma StronglySorted_snoc {A : Type} (R : A -> A -> Prop) l a :
  StronglySorted R l -> Forall (fun x => R x a) l ->
  StronglySorted R (l ++ [a]).
Proof.
  induction 1 as [|x l Hs IH Hall]; simpl; intros Hfa.
  - repeat constructor.
  - inversion Hfa; subst. constructor; [now apply IH|].
    apply Forall_app. split; [assumption|]. now constructor.
Qed.

Lemma runtime_edges_sorted mx : StronglySorted Qle (runtime_edges mx).
Proof.
  unfold runtime_edges. destruct (Qltb (inject_Z 180) mx) eqn:E.
  - apply StronglySorted_snoc; [apply runtime_base_edges_sorted|].
    apply Qltb_true in E.
    assert (H180 : (inject_Z 180 <= mx + 1)%Q).
    { apply Qlt_le_weak. eapply Qlt_le_trans; [exact E|].
      rewrite <- (Qplus_0_r mx) at 1. apply Qplus_le_r. discriminate. }
    unfold runtime_base_edges. simpl.
    repeat (constructor;
            [eapply Qle_trans; [|exact H180]; apply Qle_inject_Z; lia|]).
    constructor.
  - apply runtime_base_edges_sorted.
Qed.

Lemma length_filter_map {A B : Type} (f : A -> B) (p : B -> bool) l :
  length (filter p (map f l)) = length (filter (fun a => p (f a)) l).
Proof.
  induction l as [|a l IH]; simpl; [reflexivity|].
  destruct (p (f a)); simpl; now rewrite IH.
Qed.

Lemma map_fst_combine_same {A B : Type} (l : list A) (l' : list B) :
  length l = length l' -> map fst (combine l l') = l.
Proof.
  revert l'; induction l as [|a l IH]; intros [|b l']; simpl;
    try discriminate; [reflexivity|].
  intros [= H]. now rewrite IH.
Qed.

(** The runtime table in terms of the list of edges that [pd.cut] is
    given. *)
Lemma runtime_bins_by_edges (x : Q) (xs : list Q) :
  let samples := x :: xs in
  let edges := runtime_edges (Qmaximum x xs) in
  let n := (length edges - 1)%nat in
  n = (if Qltb (inject_Z 180) (Qmaximum x xs) then 8 else 7)%nat /\
  map fst (make_runtime_bins_df samples) = firstn n runtime_labels_all /\
  map snd (make_runtime_bins_df samples)
  = map (fun i => Z.of_nat (length (filter (in_runtime_bin edges i) samples)))
        (seq 0 n).
Proof.
  cbv zeta. unfold make_runtime_bins_df.
  set (mx := Qmaximum x xs). set (edges := runtime_edges mx).
  assert (Hn : (length edges - 1
                = if Qltb (inject_Z 180) mx then 8 else 7)%nat).
  { unfold edges, runtime_edges. now destruct (Qltb (inject_Z 180) mx). }
  assert (Hlab : length (firstn (length edges - 1) runtime_labels_all)
                 = (length edges - 1)%nat).
  { rewrite Hn. now destruct (Qltb (inject_Z 180) mx). }
  assert (Hlen : length (firstn (length edges - 1) runtime_labels_all)
                 = length (value_counts
                             (length (firstn (length edges - 1)
                                             runtime_labels_all))
                             (map (fun v => cut Qle_bool edges (Some v))
                                  (x :: xs)))).
  { unfold value_counts. now rewrite length_map, length_seq. }
  split; [exact Hn|]. split.
  - now apply map_fst_combine_same.
  - rewrite (map_snd_combine_same _ _ Hlen), Hlab.
    unfold value_counts. apply map_ext_in. intros i Hi.
    apply in_seq in Hi. unfold count_code. f_equal.
    rewrite length_filter_map. f_equal. apply filter_ext. intros v.
    pose proof (cut_some_iff Qle_bool edges v i (0 # 1)%Q
                  (increasing_Q_edges _ (runtime_edges_sorted mx))) as Hc.
    unfold in_runtime_bin.
    destruct (cut Qle_bool edges (Some v)) as [j|] eqn:Ej.
    + destruct (Nat.eqb_spec j i) as [->|Hne].
      * destruct (proj1 Hc eq_refl) as [_ [Hlo Hhi]].
        rewrite Hlo. unfold Qltb. now rewrite Hhi.
      * destruct (Qle_bool (nth i edges (0 # 1)%Q) v) eqn:Hlo;
          [|reflexivity].
        destruct (Qle_bool (nth (S i) edges (0 # 1)%Q) v) eqn:Hhi;
          [unfold Qltb, Qle_bool in *; simpl; rewrite Hhi; reflexivity|].
        exfalso. apply Hne.
        assert (Some j = Some i); [|congruence].
        apply Hc. split; [lia|]. now split.
    + destruct (Qle_bool (nth i edges (0 # 1)%Q) v) eqn:Hlo;
        [|reflexivity].
      destruct (Qle_bool (nth (S i) edges (0 # 1)%Q) v) eqn:Hhi;
        [unfold Qltb; simpl; rewrite Hhi; reflexivity|].
      assert (None = Some i); [|discriminate].
      apply Hc. split; [lia|]. now split.
Qed.

Lemma Qmaximum_in l m : Qmaximum m l = m \/ In (Qmaximum m l) l.
Proof.
  unfold Qmaximum. revert m.
  induction l as [|y l IH]; simpl; intros m; [now left|].
  destruct (Qltb m y).
  - destruct (IH y) as [->|H]; [right; now left|right; now right].
  - destruct (IH m) as [->|H]; [now left|right; now right].
Qed.

Lemma overflow_iff_sample_beyond (x : Q) (xs : list Q) :
  Qltb (inject_Z 180) (Qmaximum x xs) = true <->
  Exists (fun v => inject_Z 180 < v)%Q (x :: xs).
Proof.
  rewrite Qltb_true, Exists_exists. split.
  - intros H. exists (Qmaximum x xs). split; [|exact H].
    destruct (Qmaximum_in xs x) as [->|Hin]; [now left|now right].
  - intros [v [Hv Hgt]].
    destruct (Qmaximum_ge xs x) as [Hx Hxs].
    eapply Qlt_le_trans; [exact Hgt|].
    destruct Hv as [<-|Hv]; [exact Hx|].
    rewrite Forall_forall in Hxs. now apply Hxs.
Qed.

(** X11. For a non-empty runtime collection whose samples are below 2^53
    (so that the maximum plus one is above the maximum in [float64] as it
    is in [Q]), the runtime table
    has the seven labels of the fixed edges 0, 60, 75, 90, 105, 120, 150,
    180, each with the number of samples from its lower edge, included, to
    the next edge, excluded; and exactly when some sample is beyond 180
    minutes it has an eighth row, labelled 180+, with the number of samples
    of 180 minutes or more. *)
Theorem runtime_bins_count_their_intervals (x : Q) (xs : list Q) :
  Forall runtime_exact (x :: xs) ->
  let samples := x :: xs in
  let overflow := Qltb (inject_Z 180) (Qmaximum x xs) in
  let edges := map inject_Z [0; 60; 75; 90; 105; 120; 150; 180] in
  (overflow = true <-> Exists (fun v => inject_Z 180 < v)%Q samples) /\
  map fst (make_runtime_bins_df samples)
  = ["< 60 min"; "60-74"; "75-89"; "90-104"; "105-119"; "120-149";
     "150-179"]
    ++ (if overflow then ["180+"] else []) /\
  map snd (make_runtime_bins_df samples)
  = map (fun i => Z.of_nat (length (filter (in_runtime_bin edges i) samples)))
        (seq 0 7)
    ++ (if overflow
        then [Z.of_nat (length (filter (Qle_bool (inject_Z 180)) samples))]
        else []).
Proof.
  intros _. cbv zeta.
  destruct (runtime_bins_by_edges x xs) as [Hn [Hf Hs]]. cbv zeta in *.
  split; [apply overflow_iff_sample_beyond|].
  rewrite Hf, Hs, Hn. clear Hf Hs Hn.
  unfold runtime_edges.
  destruct (Qltb (inject_Z 180) (Qmaximum x xs)) eqn:Eo.
  - split; [reflexivity|].
    change (seq 0 8) with (seq 0 7 ++ [7%nat]). rewrite map_app.
    apply f_equal2.
    + apply map_ext_in. intros i Hi. apply in_seq in Hi.
      do 7 (destruct i as [|i]; [reflexivity|]). lia.
    + cbn [map]. do 3 f_equal. apply filter_ext_in. intros v Hv.
      unfold in_runtime_bin. cbn [nth runtime_base_edges map app].
      assert (Hlt : Qltb v (Qmaximum x xs + 1) = true).
      { apply Qltb_true.
        destruct (Qmaximum_ge xs x) as [Hx Hxs].
        assert (Hle : (v <= Qmaximum x xs)%Q).
        { destruct Hv as [<-|Hv]; [exact Hx|].
          rewrite Forall_forall in Hxs. now apply Hxs. }
        eapply Qle_lt_trans; [exact Hle|].
        rewrite <- (Qplus_0_r (Qmaximum x xs)) at 1.
        apply Qplus_lt_r. reflexivity. }
      rewrite Hlt. apply andb_true_r.
  - split; [reflexivity|]. now rewrite app_nil_r.
Qed.

Lemma runtime_bins_count_their_intervals_witness :
  Forall runtime_exact [inject_Z 90; inject_Z 181; inject_Z 180] /\
  let samples := [inject_Z 90; inject_Z 181; inject_Z 180] in
  let overflow :=
    Qltb (inject_Z 180) (Qmaximum (inject_Z 90)
                                  [inject_Z 181; inject_Z 180]) in
  let edges := map inject_Z [0; 60; 75; 90; 105; 120; 150; 180] in
  (overflow = true <-> Exists (fun v => inject_Z 180 < v)%Q samples) /\
  map fst (make_runtime_bins_df samples)
  = ["< 60 min"; "60-74"; "75-89"; "90-104"; "105-119"; "120-149";
     "150-179"]
    ++ (if overflow then ["180+"] else []) /\
  map snd (make_runtime_bins_df samples)
  = map (fun i => Z.of_nat (length (filter (in_runtime_bin edges i) samples)))
        (seq 0 7)
    ++ (if overflow
        then [Z.of_nat (length (filter (Qle_bool (inject_Z 180)) samples))]
        else []).
Proof.
  assert (H : Forall runtime_exact [inject_Z 90; inject_Z 181; inject_Z 180])
    by (repeat constructor; reflexivity).
  split; [exact H|].
  exact (runtime_bins_count_their_intervals (inject_Z 90)
           [inject_Z 181; inject_Z 180] H).
Defined.

Lemma length_filter_le {A : Type} (p : A -> bool) l :
  (length (filter p l) <= length l)%nat.
Proof. induction l as [|a l IH]; simpl; [lia|]. destruct (p a); simpl; lia. Qed.

(** X12. The runtime table never counts more samples than were collected:
    a sample adds to at most one bin. *)
Theorem runtime_bins_never_overcount (samples : list Q) :
  Zsum (map snd (make_runtime_bins_df samples))
  <= Z.of_nat (length samples).
Proof.
  destruct samples as [|x xs]; [simpl; lia|].
  unfold make_runtime_bins_df. cbv zeta.
  set (edges := runtime_edges (Qmaximum x xs)).
  set (labels := firstn (length edges - 1) runtime_labels_all).
  set (codes := map (fun v => cut Qle_bool edges (Some v)) (x :: xs)).
  rewrite map_snd_combine_same
    by (unfold value_counts; now rewrite length_map, length_seq).
  unfold value_counts.
  change (map (count_code codes) (seq 0 (length labels)))
    with (map (fun i => Z.of_nat (length (members_of (fun o => o) codes i)))
              (seq 0 (length labels))).
  rewrite members_of_le.
  pose proof (length_filter_le
                (fun r : option nat => match r with
                                       | Some j => Nat.ltb j (length labels)
                                       | None => false
                                       end) codes) as Hle.
  assert (Hcodes : length codes = length (x :: xs))
    by (unfold codes; apply length_map).
  lia.
Qed.

(** X13. When no sample is negative, every sample is below 2^53 (so that
    the maximum plus one is above the maximum in [float64] as it is in
    [Q]), and either some sample is
    beyond 180 minutes or all are below 180, every sample is counted: the
    counts of the runtime table add up to the number of samples. *)
Theorem runtime_bins_complete_away_from_180 (samples : list Q) :
  Forall (fun v => 0 <= v)%Q samples ->
  Forall runtime_exact samples ->
  Exists (fun v => inject_Z 180 < v)%Q samples \/
  Forall (fun v => v < inject_Z 180)%Q samples ->
  Zsum (map snd (make_runtime_bins_df samples))
  = Z.of_nat (length samples).
Proof. intros Hnn _. now apply runtime_bins_count_all. Qed.

Lemma runtime_bins_complete_away_from_180_witness :
  Forall (fun v => 0 <= v)%Q [inject_Z 90; inject_Z 181; inject_Z 180] /\
  Forall runtime_exact [inject_Z 90; inject_Z 181; inject_Z 180] /\
  (Exists (fun v => inject_Z 180 < v)%Q
          [inject_Z 90; inject_Z 181; inject_Z 180] \/
   Forall (fun v => v < inject_Z 180)%Q
          [inject_Z 90; inject_Z 181; inject_Z 180]) /\
  Zsum (map snd (make_runtime_bins_df
                   [inject_Z 90; inject_Z 181; inject_Z 180]))
  = Z.of_nat (length [inject_Z 90; inject_Z 181; inject_Z 180]).
Proof.
  assert (H0 : Forall (fun v => 0 <= v)%Q
                      [inject_Z 90; inject_Z 181; inject_Z 180])
    by (repeat constructor; discriminate).
  assert (H2 : Forall runtime_exact
                      [inject_Z 90; inject_Z 181; inject_Z 180])
    by (repeat constructor; reflexivity).
  assert (H1 : Exists (fun v => inject_Z 180 < v)%Q
                      [inject_Z 90; inject_Z 181; inject_Z 180])
    by (apply Exists_cons_tl, Exists_cons_hd; reflexivity).
  split; [exact H0|]. split; [exact H2|]. split; [left; exact H1|].
  apply (runtime_bins_complete_away_from_180
           [inject_Z 90; inject_Z 181; inject_Z 180] H0 H2).
  left. exact H1.
Defined.

(** * The share of long runtimes *)

Lemma Some_inj {A : Type} (a b : A) : Some a = Some b -> a = b.
Proof. now intros [= ->]. Qed.

(** X14. The share of runtimes of 120 minutes or more is undefined exactly
    for an empty collection; otherwise it is the number of such samples
    divided by the number of samples, a value between 0 and 1. *)
Theorem long_runtime_share_is_a_fraction (samples : list Q) :
  (make_long_runtime_share samples = None <-> samples = []) /\
  (forall s, make_long_runtime_share samples = Some s ->
     (s == inject_Z (Z.of_nat (length (filter (Qle_bool (inject_Z 120))
                                              samples)))
           / inject_Z (Z.of_nat (length samples)))%Q /\
     (0 <= s)%Q /\ (s <= 1)%Q).
Proof.
  destruct samples as [|x xs].
  - split; [tauto|discriminate].
  - split; [split; discriminate|].
    assert (Hpos : (0 < length (x :: xs))%nat) by (simpl; lia).
    unfold make_long_runtime_share.
    generalize dependent (x :: xs). intros l Hpos s Hs.
    apply Some_inj in Hs. subst s.
    split; [reflexivity|].
    pose proof (length_filter_le (Qle_bool (inject_Z 120)) l) as Hk.
    apply ratio_within.
    + change 0%Q with (inject_Z 0). rewrite <- Zlt_Qlt. lia.
    + rewrite Qmult_0_l. change 0%Q with (inject_Z 0).
      rewrite <- Zle_Qle. lia.
    + rewrite Qmult_1_l. rewrite <- Zle_Qle. lia.
Qed.

(** * The join *)

(** X15. A row is joined for a chunk exactly when it is built from a title
    of the chunk whose type is movie and a rating record with the same
    identifier: other title types and titles without rating record never
    reach the aggregators, and neither does a rating record without a
    movie title. *)
Theorem joined_rows_are_rated_movies tn ratings chunk m :
  In m (movies_of_chunk tn ratings chunk) <->
  exists t r,
    In t chunk /\ In r ratings /\
    titleType t = Some "movie" /\ r_tconst r = t_tconst t /\
    m = joined_movie tn (t, r).
Proof.
  unfold movies_of_chunk, join_inner. rewrite in_map_iff. split.
  - intros [[t r] [<- Hin]]. apply in_flat_map in Hin.
    destruct Hin as [t' [Ht Hin]]. apply in_map_iff in Hin.
    destruct Hin as [r' [[= -> ->] Hr]].
    apply filter_In in Ht. apply filter_In in Hr.
    destruct Ht as [Ht Hm], Hr as [Hr Hid].
    exists t, r. repeat split; try assumption.
    + unfold is_movie in Hm. destruct (titleType t) as [ty|];
        [|discriminate].
      apply String.eqb_eq in Hm. now subst.
    + now apply String.eqb_eq.
  - intros [t [r [Ht [Hr [Hm [Hid ->]]]]]].
    exists (t, r). split; [reflexivity|].
    apply in_flat_map. exists t. split.
    + apply filter_In. split; [assumption|].
      unfold is_movie. rewrite Hm. apply String.eqb_refl.
    + apply in_map_iff. exists r. split; [reflexivity|].
      apply filter_In. split; [assumption|]. now apply String.eqb_eq.
Qed.

(** * Splitting the genre cell *)

Lemma str_split_nonempty sep s : str_split sep s <> [].
Proof.
  destruct s as [|c rest]; simpl; [discriminate|].
  destruct (str_split sep rest); [discriminate|].
  destruct (Ascii.eqb c sep); discriminate.
Qed.

(** X16. Splitting a cell on the separator loses nothing: joining the
    tokens with the separator gives the cell back, there is one token more
    than there are separators in the cell (so an empty cell gives one empty
    token), and no token contains the separator. *)
Theorem str_split_round_trip (sep : ascii) (s : string) :
  String.concat (String sep EmptyString) (str_split sep s) = s /\
  length (str_split sep s)
  = S (count_occ ascii_dec (list_ascii_of_string s) sep) /\
  Forall (fun tok => ~ In sep (list_ascii_of_string tok)) (str_split sep s).
Proof.
  induction s as [|c rest [IHj [IHn IHt]]]; simpl.
  - repeat split. repeat constructor. intros [].
  - pose proof (str_split_nonempty sep rest) as Hne.
    destruct (str_split sep rest) as [|tok toks]; [congruence|].
    destruct (Ascii.eqb_spec c sep) as [->|Hc].
    + repeat split.
      * cbn [String.concat]. cbn [String.concat] in IHj.
        now rewrite IHj.
      * simpl. destruct (ascii_dec sep sep); [|congruence].
        simpl in IHn. lia.
      * constructor; [intros []|assumption].
    + repeat split.
      * cbn [String.concat]. cbn [String.concat] in IHj.
        destruct toks as [|tok' toks]; simpl; now rewrite <- IHj.
      * simpl. destruct (ascii_dec c sep); [congruence|].
        simpl in IHn. lia.
      * inversion IHt as [|? ? Htok Htoks]; subst.
        constructor; [|assumption].
        simpl. intros [H|H]; [now apply Hc|now apply Htok].
Qed.

(** * When the finalizer raises *)

Lemma valid_years_app l1 l2 :
  valid_years (l1 ++ l2) = valid_years l1 ++ valid_years l2.
Proof. unfold valid_years. apply flat_map_app. Qed.

Lemma fold_year_keys (batches : list (list Movie)) s y :
  In y (map fst (year_weighted_sums (fold_left update_aggregators batches s)))
  <-> In y (map fst (year_weighted_sums s)) \/
      In y (map fst (valid_years (concat batches))).
Proof.
  revert s. induction batches as [|b batches IH]; simpl; intros s.
  - tauto.
  - rewrite IH. simpl. unfold update_year_sums.
    rewrite (in_keys_fold_groups_iff Z.eqb Zeqb_spec).
    rewrite (in_groupby_keys Z.eqb Zeqb_spec).
    rewrite valid_years_app, map_app, in_app_iff. tauto.
Qed.

Lemma fold_genre_keys (batches : list (list Movie)) s g :
  In g (map fst (genre_stats (fold_left update_aggregators batches s)))
  <-> In g (map fst (genre_stats s)) \/
      In g (map fst (exploded_genres (concat batches))).
Proof.
  revert s. induction batches as [|b batches IH]; simpl; intros s.
  - tauto.
  - rewrite IH. simpl. unfold update_genre_stats.
    rewrite (in_keys_fold_groups_iff String.eqb Seqb_spec).
    rewrite (in_groupby_keys String.eqb Seqb_spec).
    rewrite exploded_genres_app, map_app, in_app_iff. tauto.
Qed.

Lemma fold_frames_length (batches : list (list Movie)) s :
  length (top_titles_frames (fold_left update_aggregators batches s))
  = (length (top_titles_frames s) + length batches)%nat.
Proof.
  revert s. induction batches as [|b batches IH]; simpl; intros s; [lia|].
  rewrite IH. simpl. rewrite length_app. simpl. lia.
Qed.

Lemma keys_empty_iff {K V W : Type} (d : list (K * V)) (l : list (K * W)) :
  (forall k, In k (map fst d) <-> In k (map fst l)) ->
  (d = [] <-> l = []).
Proof.
  intros H. split; intros ->.
  - destruct l as [|[k w] l]; [reflexivity|].
    exfalso. apply (proj2 (H k)). now left.
  - destruct d as [|[k v] d]; [reflexivity|].
    exfalso. apply (proj1 (H k)). now left.
Qed.

Lemma stream_dicts_empty_iff tn ratings chunks :
  (year_weighted_sums (stream tn ratings chunks) = [] <->
   valid_years (joined_rows tn ratings chunks) = []) /\
  (genre_stats (stream tn ratings chunks) = [] <->
   exploded_genres (joined_rows tn ratings chunks) = []).
Proof.
  rewrite stream_fold. unfold joined_rows. split.
  - apply keys_empty_iff. intros y.
    rewrite fold_year_keys. simpl. tauto.
  - apply keys_empty_iff. intros g.
    rewrite fold_genre_keys. simpl. tauto.
Qed.

(** X17. [analyse] returns a report exactly when some joined row has a
    known start year (and vote count) and some joined row has a genre token
    other than the missing-value mark; in every other case, an empty
    stream included, it raises the [KeyError] of [dropna] on the column
    [weighted_average_rating], and it raises nothing else. *)
Theorem analyse_outcome tn ratings chunks :
  match analyse tn ratings chunks with
  | Ok _ =>
      valid_years (joined_rows tn ratings chunks) <> [] /\
      exploded_genres (joined_rows tn ratings chunks) <> []
  | Raise e =>
      e = KeyError ["weighted_average_rating"] /\
      (valid_years (joined_rows tn ratings chunks) = [] \/
       exploded_genres (joined_rows tn ratings chunks) = [])
  end.
Proof.
  destruct (stream_dicts_empty_iff tn ratings chunks) as [Hy Hg].
  unfold analyse, finalize, make_yearly_ratings_df, make_genre_df,
    make_top_titles_df, yearly_rating_records, genre_records.
  destruct (year_weighted_sums (stream tn ratings chunks)) as [|ya yd] eqn:Ey.
  - simpl. split; [reflexivity|]. left. now apply Hy.
  - assert (Hvy : valid_years (joined_rows tn ratings chunks) <> []).
    { intros H. apply Hy in H. discriminate. }
    cbn [map frame_dropna bind].
    destruct (genre_stats (stream tn ratings chunks)) as [|ga gd] eqn:Eg.
    + simpl. split; [reflexivity|]. right. now apply Hg.
    + assert (Hvg : exploded_genres (joined_rows tn ratings chunks) <> []).
      { intros H. apply Hg in H. discriminate. }
      cbn [map frame_dropna bind].
      destruct (top_titles_frames (stream tn ratings chunks)) as [|f fs]
        eqn:Ef.
      * exfalso. apply Hvy.
        assert (Hlen : length (top_titles_frames (stream tn ratings chunks))
                       = length chunks).
        { rewrite stream_fold, fold_frames_length, length_map.
          reflexivity. }
        rewrite Ef in Hlen. destruct chunks; [reflexivity|discriminate].
      * cbn [pd_concat bind]. now split.
Qed.

(** * Quantiles lie within the samples *)

Lemma Qle_bool_total a b : Qle_bool a b = true \/ Qle_bool b a = true.
Proof.
  rewrite !Qle_bool_iff.
  destruct (Qlt_le_dec a b) as [H|H]; [left; now apply Qlt_le_weak|now right].
Qed.

Lemma Qle_bool_trans a b c :
  Qle_bool a b = true -> Qle_bool b c = true -> Qle_bool a c = true.
Proof. rewrite !Qle_bool_iff. apply Qle_trans. Qed.

Lemma sorted_nth_le (s : list Q) d i j :
  StronglySorted (fun a b => Qle_bool a b = true) s ->
  (i <= j)%nat -> (j < length s)%nat ->
  (nth i s d <= nth j s d)%Q.
Proof.
  intros Hs. revert i j.
  induction Hs as [|x s _ IH Hall]; intros i j Hij Hj; [simpl in Hj; lia|].
  destruct i as [|i], j as [|j]; simpl in *; try lia.
  - apply Qle_refl.
  - rewrite Forall_forall in Hall. apply Qle_bool_iff, Hall, nth_In. lia.
  - apply IH; lia.
Qed.

Lemma interpolation_between (a b frac : Q) :
  (a <= b)%Q -> (0 <= frac)%Q -> (frac <= 1)%Q ->
  (a <= a + (b - a) * frac)%Q /\ (a + (b - a) * frac <= b)%Q.
Proof.
  intros Hab H0 H1.
  assert (Hd : (0 <= b - a)%Q).
  { unfold Qminus. rewrite <- (Qplus_opp_r a). apply Qplus_le_l.
    exact Hab. }
  split.
  - rewrite <- (Qplus_0_r a) at 1. apply Qplus_le_r.
    now apply Qmult_le_0_compat.
  - assert (Hm : ((b - a) * frac <= (b - a) * 1)%Q).
    { rewrite (Qmult_comm (b - a) frac), (Qmult_comm (b - a) 1).
      now apply Qmult_le_compat_r. }
    rewrite Qmult_1_r in Hm.
    apply (Qle_trans _ (a + (b - a))).
    + now apply Qplus_le_r.
    + apply Qle_lteq. right. ring.
Qed.

(** A quantile of a non-empty list lies between two of its elements. *)
Lemma quantile_between (l : list Q) (q r : Q) :
  (0 <= q)%Q -> (q <= 1)%Q -> quantile l q = Some r ->
  exists a b, In a l /\ In b l /\ (a <= r)%Q /\ (r <= b)%Q.
Proof.
  intros Hq0 Hq1. unfold quantile.
  pose proof (sort_by_sorted Qle_bool Qle_bool_total Qle_bool_trans l) as Hs.
  pose proof (sort_by_in Qle_bool) as Hin.
  destruct (sort_by Qle_bool l) as [|x xs] eqn:Es; [discriminate|].
  cbv zeta. intros Hr. apply Some_inj in Hr. subst r.
  set (s := x :: xs) in *.
  set (n := length s).
  set (pos := (q * inject_Z (Z.of_nat (n - 1)))%Q).
  assert (Hn : (1 <= n)%nat) by (unfold n, s; simpl; lia).
  assert (Hm0 : (0 <= inject_Z (Z.of_nat (n - 1)))%Q)
    by (change 0%Q with (inject_Z 0); rewrite <- Zle_Qle; lia).
  assert (Hpos0 : (0 <= pos)%Q) by now apply Qmult_le_0_compat.
  assert (Hpos1 : (pos <= inject_Z (Z.of_nat (n - 1)))%Q).
  { unfold pos.
    rewrite <- (Qmult_1_l (inject_Z (Z.of_nat (n - 1)))) at 2.
    now apply Qmult_le_compat_r. }
  assert (Hf0 : 0 <= Qfloor pos).
  { rewrite <- (Qfloor_Z 0). now apply Qfloor_resp_le. }
  assert (Hf1 : Qfloor pos <= Z.of_nat (n - 1)).
  { rewrite <- (Qfloor_Z (Z.of_nat (n - 1))). now apply Qfloor_resp_le. }
  set (lo := Z.to_nat (Qfloor pos)).
  set (hi := Nat.min (S lo) (n - 1)).
  assert (Hlo : (lo <= n - 1)%nat) by (unfold lo; lia).
  assert (Hhi : (lo <= hi)%nat /\ (hi <= n - 1)%nat) by (unfold hi; lia).
  exists (nth lo s x), (nth hi s x).
  split; [apply Hin with (l := l); rewrite Es; apply nth_In; fold n; lia|].
  split; [apply Hin with (l := l); rewrite Es; apply nth_In; fold n; lia|].
  apply interpolation_between.
  - apply sorted_nth_le; [assumption|lia|fold n; lia].
  - unfold Qminus. rewrite <- (Qplus_opp_r (inject_Z (Qfloor pos))).
    apply Qplus_le_l. apply Qfloor_le.
  - apply Qlt_le_weak.
    assert (H := Qlt_floor pos). rewrite inject_Z_plus in H.
    unfold Qminus.
    apply (Qplus_lt_l _ _ (inject_Z (Qfloor pos))).
    rewrite <- Qplus_assoc, (Qplus_comm (- inject_Z (Qfloor pos))),
      Qplus_opp_r, Qplus_0_r.
    now rewrite (Qplus_comm 1).
Qed.

Lemma quantile_none (l : list Q) (q : Q) : quantile l q = None <-> l = [].
Proof.
  unfold quantile. split.
  - pose proof (sort_by_perm Qle_bool l) as Hp.
    destruct (sort_by Qle_bool l) as [|x xs]; [|discriminate].
    intros _. now apply Permutation_nil in Hp.
  - now intros ->.
Qed.

(** X18. The runtime statistics of the summary (median, 10th, 25th, 75th
    and 90th percentile) are undefined exactly when no runtime was
    collected; otherwise each lies between two collected runtimes, hence
    between the shortest and the longest. *)
Theorem runtime_statistics_within_samples ratings mpy (samples : list Q) :
  let sm := make_summaries ratings mpy samples in
  Forall (fun stat =>
            (stat = None <-> samples = []) /\
            (forall r, stat = Some r ->
               exists a b, In a samples /\ In b samples /\
                           (a <= r)%Q /\ (r <= b)%Q))
         [median_runtime sm; runtime_p10 sm; runtime_p25 sm;
          runtime_p75 sm; runtime_p90 sm].
Proof.
  cbv zeta. unfold make_summaries, median. simpl.
  repeat constructor; try apply quantile_none;
    intros r; apply quantile_between; discriminate.
Qed.

(** * The statistics of a popularity band *)





(** * Downloading *)

Lemma get_write_file_same fs name content :
  get String.eqb (write_file fs name content) name = Some content.
Proof. unfold write_file. apply (get_upsert_same String.eqb Seqb_spec). Qed.

Lemma get_write_file_other fs name content name' :
  name' <> name ->
  get String.eqb (write_file fs name content) name' = get String.eqb fs name'.
Proof. unfold write_file. apply (get_upsert_other String.eqb Seqb_spec). Qed.

Lemma download_from_keeps fetch urls fs name content :
  get String.eqb fs name = Some content ->
  get String.eqb (fst (download_from fetch urls fs)) name = Some content.
Proof.
  revert fs. induction urls as [|[filename url] urls IH]; simpl; intros fs H.
  - assumption.
  - destruct (exists_file fs filename) eqn:E; [now apply IH|].
    assert (Hne : name <> filename).
    { intros ->. unfold exists_file in E. now rewrite H in E. }
    destruct (fetch url) as [|chunks completed]; simpl; [assumption|].
    destruct completed; simpl.
    + apply IH. now rewrite get_write_file_other.
    + now rewrite get_write_file_other.
Qed.

(** X20. A file that is already in the data directory is left as it is by
    [download_datasets], whatever the network answers and whether the run
    ends normally or raises. *)
Theorem download_keeps_present_files fetch fs name content :
  get String.eqb fs name = Some content ->
  get String.eqb (fst (download_datasets fetch fs)) name = Some content.
Proof. apply download_from_keeps. Qed.

Lemma download_keeps_present_files_witness :
  get String.eqb [("title.ratings.tsv.gz", "old")] "title.ratings.tsv.gz"
  = Some "old" /\
  get String.eqb
      (fst (download_datasets (fun _ => Body ["new"] true)
                              [("title.ratings.tsv.gz", "old")]))
      "title.ratings.tsv.gz"
  = Some "old".
Proof.
  split; [reflexivity|].
  apply (download_keeps_present_files (fun _ => Body ["new"] true)
           [("title.ratings.tsv.gz", "old")]).
  reflexivity.
Defined.

Lemma download_from_success fetch urls fs :
  snd (download_from fetch urls fs) = true ->
  Forall (fun fu => exists_file (fst (download_from fetch urls fs)) (fst fu)
                    = true) urls.
Proof.
  revert fs. induction urls as [|[filename url] urls IH]; simpl; intros fs H.
  - constructor.
  - assert (Hkeep : forall fs0,
              exists_file fs0 filename = true ->
              exists_file (fst (download_from fetch urls fs0)) filename
              = true).
    { intros fs0 E. unfold exists_file in *.
      destruct (get String.eqb fs0 filename) as [c|] eqn:Ec; [|discriminate].
      now rewrite (download_from_keeps fetch urls fs0 filename c Ec). }
    destruct (exists_file fs filename) eqn:E.
    + constructor; [now apply Hkeep|now apply IH].
    + destruct (fetch url) as [|chunks completed]; [discriminate|].
      destruct completed; [|discriminate].
      constructor; [|now apply IH].
      apply Hkeep. unfold exists_file. now rewrite get_write_file_same.
Qed.

Lemma download_from_all_present fetch urls fs :
  Forall (fun fu => exists_file fs (fst fu) = true) urls ->
  download_from fetch urls fs = (fs, true).
Proof.
  induction 1 as [|[filename url] urls Hf _ IH]; simpl; [reflexivity|].
  simpl in Hf. now rewrite Hf.
Qed.

(** X21. When [download_datasets] returns normally, both dataset files are
    in the data directory, and a later run finds them there: it asks the
    network nothing and changes nothing. *)
Theorem download_success_is_stable fetch fs :
  snd (download_datasets fetch fs) = true ->
  Forall (fun fu => exists_file (fst (download_datasets fetch fs)) (fst fu)
                    = true) DATA_URLS /\
  (forall fetch',
     download_datasets fetch' (fst (download_datasets fetch fs))
     = (fst (download_datasets fetch fs), true)).
Proof.
  intros H. unfold download_datasets in *.
  pose proof (download_from_success fetch DATA_URLS fs H) as Hall.
  split; [exact Hall|].
  intros fetch'. now apply download_from_all_present.
Qed.

Lemma download_success_is_stable_witness :
  snd (download_datasets (fun _ => Body ["a"; ""; "b"] true) []) = true /\
  Forall (fun fu =>
            exists_file
              (fst (download_datasets (fun _ => Body ["a"; ""; "b"] true) []))
              (fst fu) = true) DATA_URLS /\
  (forall fetch',
     download_datasets fetch'
       (fst (download_datasets (fun _ => Body ["a"; ""; "b"] true) []))
     = (fst (download_datasets (fun _ => Body ["a"; ""; "b"] true) []),
        true)).
Proof.
  split; [reflexivity|].
  apply (download_success_is_stable (fun _ => Body ["a"; ""; "b"] true) []).
  reflexivity.
Defined.

(** X22. A download that breaks off in the middle of the body leaves the
    file with the chunks received so far and raises; every later run takes
    that truncated file as present and never downloads it again. *)
Theorem interrupted_download_is_never_repaired fetch filename url rest fs
  chunks :
  exists_file fs filename = false ->
  fetch url = Body chunks false ->
  download_from fetch ((filename, url) :: rest) fs
  = (write_file fs filename (written chunks), false) /\
  (forall fetch' urls,
     get String.eqb
         (fst (download_from fetch' urls
                 (write_file fs filename (written chunks))))
         filename
     = Some (written chunks)).
Proof.
  intros Hex Hf. split.
  - simpl. now rewrite Hex, Hf.
  - intros fetch' urls. apply download_from_keeps.
    apply get_write_file_same.
Qed.

Lemma interrupted_download_is_never_repaired_witness :
  exists_file [] "title.basics.tsv.gz" = false /\
  (fun _ : string => Body ["a"; "b"] false)
    "https://datasets.imdbws.com/title.basics.tsv.gz" = Body ["a"; "b"] false
  /\
  download_from (fun _ => Body ["a"; "b"] false)
    (("title.basics.tsv.gz",
      "https://datasets.imdbws.com/title.basics.tsv.gz") :: tl DATA_URLS) []
  = (write_file [] "title.basics.tsv.gz" (written ["a"; "b"]), false) /\
  (forall fetch' urls,
     get String.eqb
         (fst (download_from fetch' urls
                 (write_file [] "title.basics.tsv.gz" (written ["a"; "b"]))))
         "title.basics.tsv.gz"
     = Some (written ["a"; "b"])).
Proof.
  split; [reflexivity|]. split; [reflexivity|].
  apply (interrupted_download_is_never_repaired
           (fun _ => Body ["a"; "b"] false) "title.basics.tsv.gz"
           "https://datasets.imdbws.com/title.basics.tsv.gz"
           (tl DATA_URLS) [] ["a"; "b"]); reflexivity.
Defined.
